(** * WhisperKit serve client (Examples/ServeCLIClient/Python/whisperkit_client.py)

    A shallow embedding of the [WhisperKitClient] class: the text cleaner
    [_clean_whisperkit_text], the three request builders and the loop of
    [_transcribe_streaming] that consumes server-sent events, then
    [show_format_comparison], [test_logprobs], [run_tests], the branches
    of [main] and the file selection of test_transcribe.py.

    Python strings are sequences of Unicode code points; a code point is a
    number in [N].  Everything the client does to the outside (printing,
    opening the audio file, posting a request) is recorded in a trace, and
    the answers of the outside are read from a [world]. *)

From Stdlib Require Import ZArith NArith List String Ascii Bool Lia.
From stdpp Require Import gmap strings list fin_maps.
Import ListNotations.

(** ** Python [str] *)

Definition text := list N.

(** An ASCII literal of the source as a [text]. *)
Definition str (s : string) : text :=
  map N_of_ascii (list_ascii_of_string s).

Definition LT : N := 60%N.    (* < *)
Definition GT : N := 62%N.    (* > *)
Definition BAR : N := 124%N.  (* | *)
Definition SP : N := 32%N.    (* the space that replaces a whitespace run *)

(** [Py_UNICODE_ISSPACE]: the characters matched by [\s] in a [str]
    pattern and removed by [str.strip()]. *)
Definition is_space (c : N) : bool :=
  (((9 <=? c) && (c <=? 13)) || ((28 <=? c) && (c <=? 32))
   || (c =? 133) || (c =? 160) || (c =? 5760)
   || ((8192 <=? c) && (c <=? 8202))
   || (c =? 8232) || (c =? 8233) || (c =? 8239) || (c =? 8287)
   || (c =? 12288))%N.

Fixpoint lstrip (s : text) : text :=
  match s with
  | [] => []
  | c :: r => if is_space c then lstrip r else s
  end.

Fixpoint rstrip (s : text) : text :=
  match s with
  | [] => []
  | c :: r =>
      match rstrip r with
      | [] => if is_space c then [] else [c]
      | r' => c :: r'
      end
  end.

(** [s.strip()] *)
Definition strip (s : text) : text := rstrip (lstrip s).

(** [sep.join(items)] *)
Fixpoint join (sep : text) (items : list text) : text :=
  match items with
  | [] => []
  | [x] => x
  | x :: rest => x ++ sep ++ join sep rest
  end.

(** [s.startswith(prefix)] *)
Fixpoint startswith (s prefix : text) : bool :=
  match prefix, s with
  | [], _ => true
  | p :: prefix', c :: s' => (c =? p)%N && startswith s' prefix'
  | _ :: _, [] => false
  end.

(** ** The fragment of [re] the client uses

    The two patterns of the source are [<\|[^>]+\|>] and [\s+]: literals,
    one negated class, [\s], concatenation and the greedy [+]. *)

Module Re.

Inductive regex : Type :=
| Lit (c : N)            (* a literal character *)
| NotLit (c : N)         (* [^c] *)
| Space                  (* \s *)
| Cat (a b : regex)      (* ab *)
| Plus (a : regex).      (* a+, greedy *)

(** Backtracking matcher in continuation-passing style: [run r s k]
    matches [r] at the head of [s] and hands the rest to [k]; when [k]
    refuses, the next alternative is tried.

    [plus_loop step k fuel s] is [a+] for the matcher [step] of [a]:
    after one [a] it first tries one more iteration (greedy), which has
    to consume something, and only then offers the rest to [k].  Every
    iteration consumes a character, so [S (length s)] rounds suffice. *)
Fixpoint plus_loop (step : text -> (text -> option text) -> option text)
    (k : text -> option text) (fuel : nat) (s : text) : option text :=
  match fuel with
  | O => None
  | S fuel' =>
      step s (fun s' =>
        match
          (if length s' <? length s then plus_loop step k fuel' s' else None)
        with
        | Some out => Some out
        | None => k s'
        end)
  end.

Fixpoint run (r : regex) (s : text) (k : text -> option text)
  {struct r} : option text :=
  match r with
  | Lit c =>
      match s with
      | x :: s' => if (x =? c)%N then k s' else None
      | [] => None
      end
  | NotLit c =>
      match s with
      | x :: s' => if (x =? c)%N then None else k s'
      | [] => None
      end
  | Space =>
      match s with
      | x :: s' => if is_space x then k s' else None
      | [] => None
      end
  | Cat a b => run a s (fun s' => run b s' k)
  | Plus a => plus_loop (run a) k (S (length s)) s
  end.

(** [re.match]: the text left after the match anchored at the head. *)
Definition match_ (r : regex) (s : text) : option text := run r s Some.

(** [re.search(r, s) is not None] *)
Fixpoint search (r : regex) (s : text) : bool :=
  match match_ r s with
  | Some _ => true
  | None =>
      match s with
      | [] => false
      | _ :: s' => search r s'
      end
  end.

(** [len(re.findall(r, s))], for matches that are not empty. *)
Fixpoint count_from (skip : nat) (r : regex) (s : text) : nat :=
  match s with
  | [] => O
  | _ :: s' =>
      match skip with
      | S n => count_from n r s'
      | O =>
          match match_ r s with
          | Some rest =>
              match length s - length rest with
              | S n => S (count_from n r s')
              | O => count_from O r s'
              end
          | None => count_from O r s'
          end
      end
  end.

Definition count (r : regex) (s : text) : nat := count_from O r s.

(** [re.sub(r, repl, s)]: scan from the left; where [r] matches, emit
    [repl] and go on after the match ([skip] counts the characters of
    the match still to pass over); elsewhere copy the character. *)
Fixpoint sub_from (skip : nat) (r : regex) (repl : text) (s : text) : text :=
  match s with
  | [] =>
      match skip, match_ r [] with
      | O, Some _ => repl
      | _, _ => []
      end
  | c :: s' =>
      match skip with
      | S n => sub_from n r repl s'
      | O =>
          match match_ r s with
          | Some rest =>
              match length s - length rest with
              | S n => repl ++ sub_from n r repl s'
              | O => repl ++ c :: sub_from O r repl s'
              end
          | None => c :: sub_from O r repl s'
          end
      end
  end.

Definition sub (r : regex) (repl : text) (s : text) : text :=
  sub_from O r repl s.

End Re.

(** [r'<\|[^>]+\|>'] *)
Definition marker_re : Re.regex :=
  Re.Cat (Re.Lit LT) (Re.Cat (Re.Lit BAR)
    (Re.Cat (Re.Plus (Re.NotLit GT)) (Re.Cat (Re.Lit BAR) (Re.Lit GT)))).

(** [r'\s+'] *)
Definition ws_re : Re.regex := Re.Plus Re.Space.

(** [WhisperKitClient._clean_whisperkit_text] *)
Definition _clean_whisperkit_text (t : text) : text :=
  let cleaned := Re.sub marker_re [] t in
  let cleaned := Re.sub marker_re [] cleaned in
  strip (Re.sub ws_re [SP] cleaned).

(** ** Python values

    What [json.loads] returns and what the variables of the client hold.  A
    finite float is a dyadic rational [m * 2^e]; a [dict] is the sequence
    of its items (keys are distinct in a Python [dict]; a lookup takes the
    first binding). *)

#[local] Set Warnings "-register-all".

Inductive pyval : Type :=
| PNone
| PBool (b : bool)
| PInt (z : Z)
| PFloat (m e : Z)
| PStr (s : text)
| PList (l : list pyval)
| PDict (d : list (text * pyval)).

(** [bool(v)] *)
Definition truthy (v : pyval) : bool :=
  match v with
  | PNone => false
  | PBool b => b
  | PInt z => negb (z =? 0)%Z
  | PFloat m _ => negb (m =? 0)%Z
  | PStr s => negb (bool_decide (s = []))
  | PList l => match l with [] => false | _ => true end
  | PDict d => match d with [] => false | _ => true end
  end.

(** [bool(l)] for an argument declared [List[str] = None] *)
Definition truthy_list (l : option (list text)) : bool :=
  match l with
  | Some (_ :: _) => true
  | _ => false
  end.

(** The value bound to [key] among the items of a [dict]. *)
Fixpoint dict_find (d : list (text * pyval)) (key : text) : option pyval :=
  match d with
  | [] => None
  | (k, v) :: d' => if bool_decide (k = key) then Some v else dict_find d' key
  end.

(** [d.get(key, dflt)] *)
Definition dict_get (d : list (text * pyval)) (key : text) (dflt : pyval) : pyval :=
  default dflt (dict_find d key).

(** [key in d] *)
Definition dict_has (d : list (text * pyval)) (key : text) : bool :=
  match dict_find d key with
  | Some _ => true
  | None => false
  end.

(** [v == 'literal'] *)
Definition eq_str (v : pyval) (lit : text) : bool :=
  match v with
  | PStr s => bool_decide (s = lit)
  | _ => false
  end.

(** ** Effects, exceptions and the outside world *)

Inductive exn : Type :=
| AttributeError       (* [.get] on a value that is not a dict *)
| TypeError
| ValueError
| OverflowError
| UnicodeDecodeError   (* [line.decode('utf-8')] *)
| OSError              (* [open(audio_path, "rb")] *)
| RequestException     (* [requests.post] *)
| JSONDecodeError      (* [response.json()] *)
| UnicodeEncodeError   (* [print] of a [str] that holds a lone surrogate *)
| RecursionError.      (* [json.loads] on a payload nested too deep *)

(** The ways [json.loads] fails on a [str] without a JSONDecodeError:
    arrays or objects nested deeper than the interpreter's recursion limit,
    and an integer literal of more digits than [int] converts (4300 by
    default). *)
Inductive loads_fault : Type :=
| TooDeep
| TooManyDigits.

(** The exception [json.loads] raises then; neither is a JSONDecodeError
    (which is a subclass of ValueError, not the reverse). *)
Definition fault_exn (f : loads_fault) : exn :=
  match f with
  | TooDeep => RecursionError
  | TooManyDigits => ValueError
  end.

(** What [json.loads] makes of a [str]. *)
Inductive loads : Type :=
| Loaded (v : pyval)
| Malformed                      (* raises JSONDecodeError *)
| Fault (f : loads_fault).       (* raises [fault_exn f] *)

(** One decoded line of [response.iter_lines()].  Splitting the body into
    lines, UTF-8 and [json.loads] are library code: a line comes with
    what they make of it. *)
Inductive sse_line : Type :=
| Blank                          (* [b''], skipped by [if line:] *)
| Undecodable                    (* not UTF-8: [line.decode] raises *)
| NotData (line_str : text)      (* does not start with ['data: '] *)
| DataJSON (event_data : pyval)  (* ['data: ' + payload], [json.loads] returns [event_data] *)
| DataRaw (data_str : text)      (* ['data: ' + data_str], [json.loads] raises JSONDecodeError *)
| DataFault (f : loads_fault).   (* ['data: ' + payload], [json.loads] raises [fault_exn f] *)

(** Lines 91-97 of the source and the [except] of line 127: what the loop
    makes of one line, given the line as UTF-8 decodes it ([None]: not
    UTF-8) and what [json.loads] makes of the payload. *)
Section Wire.
Variable json_loads : text -> loads.

Definition classify (line : option text) : sse_line :=
  match line with
  | None => Undecodable
  | Some [] => Blank
  | Some line_str =>
      if startswith line_str (str "data: ") then
        let data_str := drop 6 line_str in
        match json_loads data_str with
        | Loaded event_data => DataJSON event_data
        | Malformed => DataRaw data_str
        | Fault f => DataFault f
        end
      else NotData line_str
  end.
End Wire.

Record request : Type := {
  url : text;
  files : text;               (* the path opened and sent as the field "file" *)
  data : gmap text text;      (* the form fields *)
  headers : gmap text text;
  stream : bool
}.

Record response : Type := {
  status_code : Z;
  body : text;                    (* [response.text] *)
  iter_lines : list sse_line;     (* [response.iter_lines()] *)
  json : option pyval             (* [response.json()], [None] when it raises *)
}.

Record world : Type := {
  readable : text -> bool;                 (* does [open(path, "rb")] succeed *)
  server : request -> option response      (* [None]: [requests.post] raises *)
}.

(** An interpolated value of a printed f-string. *)
Inductive arg : Type :=
| V (v : pyval)
| E (e : exn).

Inductive effect : Type :=
| Print (fmt : string) (args : list arg)
| Open (path : text)
| Post (r : request).

Inductive outcome (A : Type) : Type :=
| Ok (a : A)
| Raise (e : exn).
Arguments Ok {A} a.
Arguments Raise {A} e.

(** A computation: the effects it performed, in order, and how it ended. *)
Definition M (A : Type) : Type := (list effect * outcome A)%type.

Definition ret {A} (a : A) : M A := ([], Ok a).
Definition raise {A} (e : exn) : M A := ([], Raise e).
Definition bind {A B} (m : M A) (f : A -> M B) : M B :=
  match m with
  | (t, Ok a) => let (t', r) := f a in (t ++ t', r)
  | (t, Raise e) => (t, Raise e)
  end.

(** Standard output is UTF-8 with strict errors (Python's default): a
    [str] can be written unless it holds a surrogate code point
    (U+D800..U+DFFF). *)
Definition is_surrogate (c : N) : bool := ((55296 <=? c) && (c <=? 57343))%N.
Definition encodable (s : text) : bool := forallb (fun c => negb (is_surrogate c)) s.

(** [str(v)] can be written: a [str] is written as it is; the [repr] of a
    list or a dict escapes the surrogates of the strings inside, and a
    number, a boolean or [None] has none. *)
Definition printable (v : pyval) : bool :=
  match v with
  | PStr s => encodable s
  | _ => true
  end.

Definition printable_arg (a : arg) : bool :=
  match a with
  | V v => printable v
  | E _ => true      (* the message of an exception escapes what it quotes *)
  end.

(** [json.dumps(v, ensure_ascii=False)] can be written: every string of
    [v], keys included, is written as it is. *)
Fixpoint dumpable (v : pyval) : bool :=
  match v with
  | PStr s => encodable s
  | PList l => forallb dumpable l
  | PDict d => forallb (fun kv => encodable (fst kv) && dumpable (snd kv)) d
  | _ => true
  end.

(** [print(f"...")] of a line in which no interpolated text comes out of
    the parsed JSON: it holds literals, numbers, exceptions, the payload
    of a line (decoded as UTF-8, which yields no surrogate), the response
    body, paths or options of the command line (taken to be printable).
    Such a line is always written. *)
Definition print_plain (fmt : string) (args : list arg) : M unit :=
  ([Print fmt args], Ok tt).

(** [print(f"...{v}...")] in general: the line is encoded as a whole
    before anything is written.  A value [v] of the parsed JSON can be a
    [str] with a lone surrogate (the escape [\ud800]); then [print] raises
    UnicodeEncodeError and nothing is written. *)
Definition print (fmt : string) (args : list arg) : M unit :=
  if forallb printable_arg args then print_plain fmt args else raise UnicodeEncodeError.

(** [print(json.dumps(v, indent=2, ensure_ascii=False))] *)
Definition print_dump (fmt : string) (v : pyval) : M unit :=
  if dumpable v then print_plain fmt [V v] else raise UnicodeEncodeError.

(** [try: body except Exception as e: handler e] *)
Definition try_except {A} (body : M A) (handler : exn -> M A) : M A :=
  match body with
  | (t, Raise e) => let (t', r) := handler e in (t ++ t', r)
  | (t, Ok a) => (t, Ok a)
  end.
Definition when (b : bool) (m : M unit) : M unit := if b then m else ret tt.

Notation "'let*' x ':=' m 'in' k" := (bind m (fun x => k))
  (at level 10, x name, m at level 100, k at level 200).
Notation "m ';;' k" := (bind m (fun _ => k))
  (at level 100, k at level 200, right associativity).

Definition effects {A} (m : M A) : list effect := fst m.
Definition result {A} (m : M A) : outcome A := snd m.

(** [open(audio_path, "rb")] *)
Definition open_rb (w : world) (path : text) : M unit :=
  ([Open path], if readable w path then Ok tt else Raise OSError).

(** [requests.post(...)] *)
Definition post (w : world) (r : request) : M response :=
  ([Post r], match server w r with Some resp => Ok resp | None => Raise RequestException end).

(** [v.get(key, dflt)]: only a dict has [get]. *)
Definition py_get (v : pyval) (key : text) (dflt : pyval) : M pyval :=
  match v with
  | PDict d => ret (dict_get d key dflt)
  | _ => raise AttributeError
  end.

(** [key in v] for the events [json.loads] returned as a dict *)
Definition py_has (v : pyval) (key : text) : bool :=
  match v with
  | PDict d => dict_has d key
  | _ => false
  end.

(** [self._clean_whisperkit_text(v)]: [re.sub] wants a [str]. *)
Definition clean_arg (v : pyval) : M text :=
  match v with
  | PStr s => ret (_clean_whisperkit_text s)
  | _ => raise TypeError
  end.

(** [v += s] for a [str] [s] *)
Definition iadd_str (v : pyval) (s : text) : M pyval :=
  match v with
  | PStr a => ret (PStr (a ++ s))
  | PList l => ret (PList (l ++ map (fun c => PStr [c]) s))
  | _ => raise TypeError
  end.

(** [len(v)] *)
Definition py_len (v : pyval) : M pyval :=
  match v with
  | PStr s => ret (PInt (Z.of_nat (length s)))
  | PList l => ret (PInt (Z.of_nat (length l)))
  | PDict d => ret (PInt (Z.of_nat (length d)))
  | _ => raise TypeError
  end.

(** the items a [for] loop draws from [v] *)
Definition py_iter (v : pyval) : M (list pyval) :=
  match v with
  | PStr s => ret (map (fun c => PStr [c]) s)
  | PList l => ret l
  | PDict d => ret (map (fun kv => PStr (fst kv)) d)
  | _ => raise TypeError
  end.

(** [v[:3]]; a dict cannot be sliced (TypeError, KeyError from Python
    3.12 on). *)
Definition py_first3 (v : pyval) : M (list pyval) :=
  match v with
  | PStr s => ret (map (fun c => PStr [c]) (take 3 s))
  | PList l => ret (take 3 l)
  | _ => raise TypeError
  end.

(** [f"{v:.2f}"]: numbers only, and an [int] has to fit a float (it is
    rounded to the nearest one, which exists below [2^1024 - 2^970]). *)
Definition py_fixed (v : pyval) : M arg :=
  match v with
  | PBool _ | PFloat _ _ => ret (V v)
  | PInt z =>
      if (Z.abs z <? 2 ^ 1024 - 2 ^ 970)%Z then ret (V v) else raise OverflowError
  | PStr _ => raise ValueError
  | _ => raise TypeError
  end.

Fixpoint for_each {A} (items : list A) (f : A -> M unit) : M unit :=
  match items with
  | [] => ret tt
  | x :: rest => f x ;; for_each rest f
  end.

(** ** The client *)

Record WhisperKitClient : Type := { server_url : text }.

Definition delta_tag : text := str "transcript.text.delta".
Definition done_tag : text := str "transcript.text.done".

(** The body of [for line in response.iter_lines():] in
    [_transcribe_streaming], from the value of [final_text] before the line
    to its value after. *)
Definition on_line (timestamp_granularities : option (list text))
    (final_text : pyval) (line : sse_line) : M pyval :=
  match line with
  | Blank => ret final_text
  | Undecodable => raise UnicodeDecodeError
  | NotData _ => ret final_text
  | DataJSON event_data =>
      let* ty := py_get event_data (str "type") PNone in
      if eq_str ty delta_tag then
        let* delta := py_get event_data (str "delta") (PStr []) in
        if truthy delta then
          let* clean_delta := clean_arg delta in
          print "{}" [V (PStr clean_delta)] ;;
          iadd_str final_text clean_delta
        else ret final_text
      else if eq_str ty done_tag then
        let* final_text := py_get event_data (str "text") final_text in
        print "Final transcription: {}" [V final_text] ;;
        when (py_has event_data (str "language"))
          (let* v := py_get event_data (str "language") PNone in
           print "Language: {}" [V v]) ;;
        when (py_has event_data (str "duration"))
          (let* v := py_get event_data (str "duration") PNone in
           print "Duration: {} seconds" [V v]) ;;
        when (truthy_list timestamp_granularities)
          (let tg := default [] timestamp_granularities in
           print_plain "Timestamp Granularities: {}" [V (PStr (join (str ", ") tg))] ;;
           when (bool_decide (str "word" ∈ tg))
             (print_plain "Word-level timestamps enabled" []) ;;
           when (bool_decide (str "segment" ∈ tg))
             (print_plain "Segment-level timestamps enabled" [])) ;;
        ret final_text
      else
        print "Event: {}" [V event_data] ;;
        ret final_text
  | DataFault f => raise (fault_exn f)
  | DataRaw data_str =>
      print_plain "JSON decode error: {} for data: {}" [E JSONDecodeError; V (PStr data_str)] ;;
      if truthy (PStr (strip data_str)) then
        let final_text := PStr (strip data_str) in
        print_plain "Extracted text: {}" [V final_text] ;;
        ret final_text
      else ret final_text
  end.

(** The whole loop: lines are taken in order until the iterator is
    exhausted or a line raises. *)
Fixpoint consume (timestamp_granularities : option (list text))
    (lines : list sse_line) (final_text : pyval) : M pyval :=
  match lines with
  | [] => ret final_text
  | line :: rest =>
      let* final_text := on_line timestamp_granularities final_text line in
      consume timestamp_granularities rest final_text
  end.

(** The display of one segment, shared by the two loops over
    [segments[:3]]; [with_confidence] is the [avg_logprob] line that only
    the transcription has. *)
Definition show_segment (with_confidence : bool) (i : nat) (segment : pyval) : M unit :=
  let* start := py_get segment (str "start") (PInt 0) in
  let* start := py_fixed start in
  let* end_ := py_get segment (str "end") (PInt 0) in
  let* end_ := py_fixed end_ in
  print_plain "Segment {}: {}s - {}s" [V (PInt (Z.of_nat (S i))); start; end_] ;;
  let* t := py_get segment (str "text") (PStr []) in
  print "Text: {}" [V t] ;;
  when (with_confidence && py_has segment (str "avg_logprob"))
    (let* c := py_get segment (str "avg_logprob") (PInt 0) in
     let* c := py_fixed c in
     print_plain "Confidence: {}" [c]).

Fixpoint show_segments_from (with_confidence : bool) (i : nat) (segments : list pyval) : M unit :=
  match segments with
  | [] => ret tt
  | segment :: rest =>
      show_segment with_confidence i segment ;;
      show_segments_from with_confidence (S i) rest
  end.

Definition show_segments (with_confidence : bool) (result : pyval) : M unit :=
  let* segments := py_get result (str "segments") (PList []) in
  when (truthy segments)
    (let* n := py_len segments in
     print_plain "Segments: {}" [V n] ;;
     let* first := py_first3 segments in
     show_segments_from with_confidence O first).

Definition show_word (word : pyval) : M unit :=
  let* start := py_get word (str "start") (PInt 0) in
  let* end_ := py_get word (str "end") (PInt 0) in
  let* word_text := py_get word (str "word") (PStr []) in
  let* start := py_fixed start in
  let* end_ := py_fixed end_ in
  print "{}s - {}s: '{}'" [start; end_; V word_text].

Definition show_words (result : pyval) : M unit :=
  let* words := py_get result (str "words") (PList []) in
  let* nonempty :=
    (if truthy words then
       let* n := py_len words in
       ret (match n with PInt z => (0 <? z)%Z | _ => false end)
     else ret false) in
  if nonempty then
    let* n := py_len words in
    print_plain "Words: {}" [V n] ;;
    print_plain "All words with timestamps:" [] ;;
    let* items := py_iter words in
    for_each items show_word
  else
    print_plain "Words: No word-level timestamps available" [] ;;
    print_plain "Note: Server may not support word-level timestamps yet" [] ;;
    let* keys := py_iter result in
    print "Raw response keys: {}" (map V keys).

(** The request [_transcribe_non_streaming] posts: the form fields are
    the dict [data], filled by assignments [data[key] = value]. *)
Definition non_streaming_request (self : WhisperKitClient)
    (audio_path language model response_format : text)
    (timestamp_granularities include : option (list text)) : request :=
  let data : gmap text text :=
    <[str "response_format" := response_format]> (<[str "model" := model]> ∅) in
  let data :=
    if truthy (PStr language) then <[str "language" := language]> data else data in
  let data :=
    if truthy_list timestamp_granularities
    then <[str "timestamp_granularities[]" :=
             join (str ",") (default [] timestamp_granularities)]> data
    else data in
  let data :=
    if truthy_list include
    then fold_left (fun data include_item => <[str "include[]" := include_item]> data)
                   (default [] include) data
    else data in
  {| url := server_url self ++ str "/v1/audio/transcriptions";
     files := audio_path; data := data; headers := ∅; stream := false |}.

(** The request [_transcribe_streaming] posts. *)
Definition streaming_request (self : WhisperKitClient)
    (audio_path language model response_format : text)
    (timestamp_granularities : option (list text)) : request :=
  let data : gmap text text :=
    <[str "stream" := str "true"]>
      (<[str "response_format" := response_format]> (<[str "model" := model]> ∅)) in
  let data :=
    if truthy (PStr language) then <[str "language" := language]> data else data in
  let data :=
    if truthy_list timestamp_granularities
    then <[str "timestamp_granularities[]" :=
             join (str ",") (default [] timestamp_granularities)]> data
    else data in
  {| url := server_url self ++ str "/v1/audio/transcriptions";
     files := audio_path; data := data;
     headers := <[str "Accept" := str "text/event-stream"]> ∅;
     stream := true |}.

(** The request [translate] posts; [timestamp_granularities] is an
    argument of [translate] and the source has its use commented out
    ("Translation endpoint doesn't support timestamp_granularities"). *)
Definition translation_request (self : WhisperKitClient)
    (audio_path model response_format : text)
    (timestamp_granularities : option (list text)) : request :=
  let data : gmap text text :=
    <[str "response_format" := response_format]> (<[str "model" := model]> ∅) in
  {| url := server_url self ++ str "/v1/audio/translations";
     files := audio_path; data := data; headers := ∅; stream := false |}.

(** [WhisperKitClient._transcribe_non_streaming] *)
Definition _transcribe_non_streaming (self : WhisperKitClient) (w : world)
    (audio_path language model response_format : text)
    (timestamp_granularities : option (list text)) (debug : bool)
    (include : option (list text)) : M pyval :=
  try_except
    (open_rb w audio_path ;;
     let* response :=
       post w (non_streaming_request self audio_path language model response_format
                 timestamp_granularities include) in
     if negb (status_code response =? 200)%Z then
       print_plain "Transcription failed: {} {}"
             [V (PInt (status_code response)); V (PStr (body response))] ;;
       ret PNone
     else
       let* result :=
         (match json response with
          | Some v => ret v
          | None => raise JSONDecodeError
          end) in
       when debug
         (print_plain "DEBUG: Raw JSON Response:" [] ;;
          print_plain "============================================================" [] ;;
          print_dump "{}" result ;;
          print_plain "============================================================" []) ;;
       let* t := py_get result (str "text") (PStr []) in
       print "Transcription: {}" [V t] ;;
       when (bool_decide (response_format = str "verbose_json"))
         (print_plain "Detailed Information:" [] ;;
          let* lang := py_get result (str "language") (PStr (str "Unknown")) in
          print "Language: {}" [V lang] ;;
          let* dur := py_get result (str "duration") (PStr (str "Unknown")) in
          print "Duration: {} seconds" [V dur] ;;
          show_segments true result ;;
          when (truthy_list timestamp_granularities
                && bool_decide (str "word" ∈ default [] timestamp_granularities))
            (show_words result)) ;;
       ret t)
    (fun e => print_plain "Non-streaming transcription failed: {}" [E e] ;; ret PNone).

(** [WhisperKitClient._transcribe_streaming] *)
Definition _transcribe_streaming (self : WhisperKitClient) (w : world)
    (audio_path language model response_format : text)
    (timestamp_granularities : option (list text)) : M pyval :=
  try_except
    (open_rb w audio_path ;;
     print_plain "Starting streaming transcription..." [] ;;
     let* response :=
       post w (streaming_request self audio_path language model response_format
                 timestamp_granularities) in
     if negb (status_code response =? 200)%Z then
       print_plain "Streaming failed: {} {}"
             [V (PInt (status_code response)); V (PStr (body response))] ;;
       ret PNone
     else
       print_plain "Receiving stream data..." [] ;;
       let* final_text :=
         consume timestamp_granularities (iter_lines response) (PStr []) in
       if negb (truthy final_text) then
         print_plain "No text received from stream, falling back to non-streaming" [] ;;
         _transcribe_non_streaming self w audio_path language model response_format
           timestamp_granularities false None
       else ret final_text)
    (fun e => print_plain "Streaming transcription failed: {}" [E e] ;; ret PNone).

(** [WhisperKitClient.transcribe] *)
Definition transcribe (self : WhisperKitClient) (w : world)
    (audio_path language model : text) (stream : bool) (response_format : text)
    (timestamp_granularities : option (list text)) (debug : bool)
    (include : option (list text)) : M pyval :=
  try_except
    (if stream then
       _transcribe_streaming self w audio_path language model response_format
         timestamp_granularities
     else
       _transcribe_non_streaming self w audio_path language model response_format
         timestamp_granularities debug include)
    (fun e => print_plain "Transcription failed: {}" [E e] ;; ret PNone).

(** [WhisperKitClient.translate] *)
Definition translate (self : WhisperKitClient) (w : world)
    (audio_path model response_format : text)
    (timestamp_granularities : option (list text)) : M pyval :=
  try_except
    (open_rb w audio_path ;;
     let* response :=
       post w (translation_request self audio_path model response_format
                 timestamp_granularities) in
     if negb (status_code response =? 200)%Z then
       print_plain "Translation failed: {} {}"
             [V (PInt (status_code response)); V (PStr (body response))] ;;
       ret PNone
     else
       let* result :=
         (match json response with
          | Some v => ret v
          | None => raise JSONDecodeError
          end) in
       let* t := py_get result (str "text") (PStr []) in
       print "Translation: {}" [V t] ;;
       when (bool_decide (response_format = str "verbose_json"))
         (print_plain "Translation Details:" [] ;;
          let* lang := py_get result (str "language") (PStr (str "Unknown")) in
          print "Output Language: {}" [V lang] ;;
          let* dur := py_get result (str "duration") (PStr (str "Unknown")) in
          print "Duration: {} seconds" [V dur] ;;
          show_segments false result) ;;
       (if bool_decide (response_format = str "json") then
          print_plain "Response Format: {}" [V (PStr response_format)] ;;
          print_plain "Contains only the translated text" []
        else
          when (bool_decide (response_format = str "verbose_json"))
            (print_plain "Response Format: {}" [V (PStr response_format)] ;;
             print_plain "Contains detailed information including:" [] ;;
             print_plain "- Output language (should be English)" [] ;;
             print_plain "- Duration" [] ;;
             print_plain "- Segments with timing" [])) ;;
       ret t)
    (fun e => print_plain "Translation failed: {}" [E e] ;; ret PNone).

(** [WhisperKitClient.show_format_comparison]: the two calls leave
    [timestamp_granularities], [debug] and [include] at their defaults. *)
Definition show_format_comparison (self : WhisperKitClient) (w : world)
    (audio_path language model : text) : M pyval :=
  print_plain "Format Comparison for: {}" [V (PStr audio_path)] ;;
  print_plain "============================================================" [] ;;
  print_plain "JSON Format (minimal):" [] ;;
  print_plain "------------------------------" [] ;;
  let* json_result :=
    _transcribe_non_streaming self w audio_path language model (str "json")
      None false None in
  print_plain "Verbose JSON Format (detailed):" [] ;;
  print_plain "------------------------------" [] ;;
  let* verbose_result :=
    _transcribe_non_streaming self w audio_path language model (str "verbose_json")
      None false None in
  print_plain "============================================================" [] ;;
  print_plain "Key Differences:" [] ;;
  print_plain "JSON: Only contains the transcribed text" [] ;;
  print_plain "Verbose JSON: Contains text + language + duration + segments + confidence scores" [] ;;
  print_plain "Use JSON for simple text extraction" [] ;;
  print_plain "Use Verbose JSON for detailed analysis and timing information" [] ;;
  ret PNone.

(** ** [test_logprobs] *)

(** [needle in s] for two [str] *)
Fixpoint is_infix (needle s : text) : bool :=
  startswith s needle ||
  match s with
  | [] => false
  | _ :: s' => is_infix needle s'
  end.



(** [bool(o)] for an optional [str] argument *)
Definition given (o : option text) : bool :=
  match o with
  | Some (_ :: _) => true
  | _ => false
  end.



(** [s.split(sep)] for a separator of one character *)
Fixpoint split_on (sep : N) (s : text) : list text :=
  match s with
  | [] => [[]]
  | c :: r =>
      if (c =? sep)%N then [] :: split_on sep r
      else match split_on sep r with
           | h :: t => (c :: h) :: t
           | [] => [[c]]
           end
  end.

Definition COMMA : N := 44%N.   (* , *)





(** ** [main]: the command line *)

(** The parsing of [--timestamp-granularities] that the branches of [main]
    repeat: [[x.strip() for x in value.split(',')]] when the option is
    given and not empty. *)
Definition parse_granularities (value : option text) : option (list text) :=
  if given value then Some (map strip (split_on COMMA (default [] value)))
  else None.

(** The branch [args.command == "transcribe"] of [main], from the parsed
    arguments.  The command line has no option for [include]. *)
Definition main_transcribe (w : world) (server model audio_file language : text)
    (stream : bool) (response_format : text)
    (timestamp_granularities : option text) (debug : bool) : M unit :=
  let client := {| server_url := server |} in
  let timestamp_granularities := parse_granularities timestamp_granularities in
  transcribe client w audio_file language model stream response_format
    timestamp_granularities debug None ;;
  ret tt.

(** The branch [args.command == "translate"] of [main]. *)
Definition main_translate (w : world) (server model audio_file response_format : text)
    (timestamp_granularities : option text) : M unit :=
  let client := {| server_url := server |} in
  let timestamp_granularities := parse_granularities timestamp_granularities in
  translate client w audio_file model response_format timestamp_granularities ;;
  ret tt.

(** The branch [args.command == "compare"] of [main]. *)
Definition main_compare (w : world) (server model audio_file language : text) : M unit :=
  let client := {| server_url := server |} in
  show_format_comparison client w audio_file language model ;;
  ret tt.

(** ** test_transcribe.py: which files [main] processes *)




(** ** Vocabulary of the statements *)

(** A greedy [c+] over a character class [p], written by recursion on the
    text: one character of the class, then as many more as possible, and
    the continuation is offered the longest run first. *)
Fixpoint plus_class (p : N -> bool) (s : text) (k : text -> option text) : option text :=
  match s with
  | [] => None
  | x :: s' =>
      if p x then
        match plus_class p s' k with
        | Some out => Some out
        | None => k s'
        end
      else None
  end.

(** Whitespace runs replaced by one space, left to right; [in_run] tells
    that the previous character was whitespace. *)
Fixpoint collapse (in_run : bool) (s : text) : text :=
  match s with
  | [] => []
  | c :: r =>
      if is_space c
      then (if in_run then collapse true r else SP :: collapse true r)
      else c :: collapse false r
  end.

(** Every whitespace character is a single space between two others;
    [prev_ws] tells that the previous character was whitespace. *)
Fixpoint single_spaced (prev_ws : bool) (s : text) : bool :=
  match s with
  | [] => true
  | c :: r =>
      if is_space c
      then (c =? SP)%N && negb prev_ws && single_spaced true r
      else single_spaced false r
  end.

(** A text as the recognizer emits it: plain stretches and markers
    [<|body|>]. *)
Inductive chunk : Type :=
| Plain (s : text)
| Marker (body : text).

Definition render_chunk (c : chunk) : text :=
  match c with
  | Plain s => s
  | Marker body => LT :: BAR :: body ++ [BAR; GT]
  end.

Definition render (cs : list chunk) : text := concat (map render_chunk cs).

Definition plain_of (cs : list chunk) : text :=
  concat (map (fun c => match c with Plain s => s | Marker _ => [] end) cs).

(** Plain stretches hold no [<]; a marker body is not empty and holds no [>]. *)
Definition chunk_ok (c : chunk) : Prop :=
  match c with
  | Plain s => LT ∉ s
  | Marker body => body ≠ [] ∧ GT ∉ body
  end.

#[global] Instance chunk_ok_dec (c : chunk) : Decision (chunk_ok c).
Proof. destruct c; apply _. Defined.

(** The body of a marker is not empty and holds no [>]; a plain stretch
    is any text. *)
Definition marker_ok (c : chunk) : Prop :=
  match c with
  | Plain _ => True
  | Marker body => body ≠ [] ∧ GT ∉ body
  end.

#[global] Instance marker_ok_dec (c : chunk) : Decision (marker_ok c).
Proof. destruct c; apply _. Defined.

(** [<|], the two characters that open a marker, appear in the text. *)
Definition opens (s : text) : bool := is_infix [LT; BAR] s.

(** What has to follow the body of a marker: [\|>]. *)
Definition marker_close (s : text) : option text :=
  match s with
  | a :: b :: rest => if (a =? BAR)%N then if (b =? GT)%N then Some rest else None else None
  | _ => None
  end.

(** The class [[^>]]. *)
Definition not_gt (x : N) : bool := negb (x =? GT)%N.

(** The last step of the cleaner: whitespace runs to single spaces, then
    [strip()]. *)
Definition squeeze (s : text) : text := strip (Re.sub ws_re [SP] s).

(** No whitespace at either end. *)
Definition no_edge_space (s : text) : Prop :=
  (∀ c, head s = Some c → is_space c = false) ∧
  (∀ c, last s = Some c → is_space c = false).


(** The events of the stream, as [json.loads] returns them. *)
Definition delta_event (d : text) : pyval :=
  PDict [(str "type", PStr delta_tag); (str "delta", PStr d)].

Definition done_event (t : text) : pyval :=
  PDict [(str "type", PStr done_tag); (str "text", PStr t)].

(** The requests posted, in order. *)
Definition posts (t : list effect) : list request :=
  omap (fun e => match e with Post r => Some r | _ => None end) t.


(** The audio file can be read and the server answers the streaming
    request with status 200 and these lines. *)
Definition streams (w : world) (r : request) (lines : list sse_line) : Prop :=
  readable w (files r) = true ∧
  ∃ resp, server w r = Some resp ∧ status_code resp = 200%Z ∧ iter_lines resp = lines.

(** The client of the examples and two servers: one answers the streaming
    request with [lines] and every other request with the JSON [reply];
    the other answers every request with [status] and [text]. *)
Definition local_client : WhisperKitClient :=
  {| server_url := str "http://localhost:50060" |}.

Definition canned_world (lines : list sse_line) (reply : pyval) : world :=
  {| readable := fun _ => true;
     server := fun r =>
       Some (if stream r
             then {| status_code := 200; body := []; iter_lines := lines;
                     json := None |}
             else {| status_code := 200; body := []; iter_lines := [];
                     json := Some reply |}) |}.


(** A line that brings no text: no line at all, a line that is not data,
    a JSON object whose type is neither tag, a payload of whitespace. *)
Definition silent (line : sse_line) : Prop :=
  match line with
  | Blank | NotData _ => True
  | DataRaw data_str => strip data_str = []
  | DataJSON (PDict fields) =>
      eq_str (dict_get fields (str "type") PNone) delta_tag = false ∧
      eq_str (dict_get fields (str "type") PNone) done_tag = false
  | _ => False
  end.

(** A computation that posts nothing. *)
Definition quiet {A} (m : M A) : Prop := posts (effects m) = [].

(** ** The matcher on the two patterns of the source *)

Section Matcher.

Lemma run_plus_class (a : Re.regex) (p : N -> bool) :
  (∀ s k, Re.run a s k = match s with
                         | x :: s' => if p x then k s' else None
                         | [] => None
                         end) →
  ∀ s k, Re.run (Re.Plus a) s k = plus_class p s k.
Proof.
  intros Ha s k. cbn [Re.run].
  assert (Hfuel : length s < S (length s)) by lia.
  revert Hfuel. generalize (S (length s)) as fuel.
  intros fuel. revert s.
  induction fuel as [|fuel IH]; intros s Hlen; [lia|].
  cbn [Re.plus_loop]. rewrite Ha. destruct s as [|x s']; [reflexivity|].
  cbn [plus_class]. destruct (p x); [|reflexivity].
  assert (Hlt : (length s' <? length (x :: s')) = true)
    by (apply Nat.ltb_lt; cbn; lia).
  rewrite Hlt. rewrite IH by (cbn in Hlen; lia). reflexivity.
Qed.

Lemma run_cat a b s k :
  Re.run (Re.Cat a b) s k = Re.run a s (fun s' => Re.run b s' k).
Proof. reflexivity. Qed.

Lemma run_lit c x s k :
  Re.run (Re.Lit c) (x :: s) k = if (x =? c)%N then k s else None.
Proof. reflexivity. Qed.

Lemma plus_class_ext p s k k' :
  (∀ t, k t = k' t) → plus_class p s k = plus_class p s k'.
Proof.
  intros Hk. induction s as [|x s IH]; [reflexivity|].
  cbn [plus_class]. by rewrite IH, Hk.
Qed.

Lemma run_plus_notlit c s k :
  Re.run (Re.Plus (Re.NotLit c)) s k = plus_class (fun x => negb (x =? c)%N) s k.
Proof.
  apply run_plus_class. intros [|x s'] k'; [reflexivity|].
  cbn. destruct (x =? c)%N; reflexivity.
Qed.

Lemma run_plus_space s k :
  Re.run (Re.Plus Re.Space) s k = plus_class is_space s k.
Proof. apply run_plus_class. intros [|x s'] k'; reflexivity. Qed.

Lemma match_marker_unfold s :
  Re.match_ marker_re s =
  match s with
  | x :: y :: r =>
      if (x =? LT)%N then if (y =? BAR)%N then plus_class not_gt r marker_close
                                           else None
      else None
  | _ => None
  end.
Proof.
  unfold Re.match_, marker_re. rewrite run_cat.
  destruct s as [|x s]; [reflexivity|]. rewrite run_lit.
  destruct (x =? LT)%N; [|by destruct s]. rewrite run_cat.
  destruct s as [|y r]; [reflexivity|]. rewrite run_lit.
  destruct (y =? BAR)%N; [|reflexivity].
  rewrite run_cat, run_plus_notlit. apply plus_class_ext.
  intros [|a [|b rest]]; [reflexivity| |].
  - cbn. by destruct (a =? BAR)%N.
  - cbn. destruct (a =? BAR)%N; [|reflexivity]. by destruct (b =? GT)%N.
Qed.

Lemma plus_class_marker_intro body rest :
  body ≠ [] → GT ∉ body →
  plus_class not_gt (body ++ BAR :: GT :: rest) marker_close = Some rest.
Proof.
  induction body as [|x body IH]; [done|].
  intros _ Hgt. apply not_elem_of_cons in Hgt as [Hx Hbody].
  cbn [app plus_class]. unfold not_gt at 1.
  destruct (N.eqb_spec x GT) as [->|_]; [done|]. cbn [negb].
  destruct body as [|y body].
  - by destruct rest.
  - rewrite IH; done.
Qed.

Lemma plus_class_marker_elim r rest :
  plus_class not_gt r marker_close = Some rest →
  ∃ body, r = body ++ BAR :: GT :: rest ∧ body ≠ [] ∧ GT ∉ body.
Proof.
  induction r as [|x r IH]; [done|].
  cbn [plus_class]. unfold not_gt at 1.
  destruct (N.eqb_spec x GT) as [->|Hx]; [done|]. cbn [negb].
  destruct (plus_class not_gt r marker_close) as [out|] eqn:Hr.
  - intros [= ->]. destruct IH as (body & -> & _ & Hgt); [done|].
    exists (x :: body). split_and!; [done|done|].
    apply not_elem_of_cons. split; [congruence|done].
  - destruct r as [|a [|b r']]; [done|done|]. cbn.
    destruct (N.eqb_spec a BAR) as [->|_]; [|done].
    destruct (N.eqb_spec b GT) as [->|_]; [|done].
    intros [= ->]. exists [x]. split_and!; [done|done|].
    apply not_elem_of_cons. split; [congruence|apply not_elem_of_nil].
Qed.

Lemma match_marker_intro body rest :
  body ≠ [] → GT ∉ body →
  Re.match_ marker_re (LT :: BAR :: body ++ BAR :: GT :: rest) = Some rest.
Proof.
  intros Hne Hgt. rewrite match_marker_unfold.
  change (LT =? LT)%N with true. change (BAR =? BAR)%N with true. cbn.
  by apply plus_class_marker_intro.
Qed.

Lemma match_marker_elim s rest :
  Re.match_ marker_re s = Some rest →
  ∃ body, s = LT :: BAR :: body ++ BAR :: GT :: rest ∧ body ≠ [] ∧ GT ∉ body.
Proof.
  rewrite match_marker_unfold.
  destruct s as [|x [|y r]]; [done|done|].
  destruct (N.eqb_spec x LT) as [->|_]; [|done].
  destruct (N.eqb_spec y BAR) as [->|_]; [|done].
  intros H. apply plus_class_marker_elim in H as (body & -> & ? & ?).
  by exists body.
Qed.

Lemma match_marker_head c s :
  c ≠ LT → Re.match_ marker_re (c :: s) = None.
Proof.
  intros Hc. rewrite match_marker_unfold.
  destruct s; [done|]. by destruct (N.eqb_spec c LT).
Qed.

Lemma match_marker_nil : Re.match_ marker_re [] = None.
Proof. reflexivity. Qed.

(** The longest run of whitespace is taken. *)
Lemma match_ws_unfold s :
  Re.match_ ws_re s =
  match s with
  | x :: s' => if is_space x then Some (lstrip s') else None
  | [] => None
  end.
Proof.
  unfold Re.match_, ws_re. rewrite run_plus_space.
  induction s as [|x s IH]; [reflexivity|].
  cbn [plus_class]. destruct (is_space x); [|reflexivity].
  rewrite IH. destruct s as [|y s']; [reflexivity|].
  cbn [lstrip]. destruct (is_space y); reflexivity.
Qed.

End Matcher.

(** ** [re.sub] *)

Section Sub.

Lemma sub_from_skip r repl n s :
  n ≤ length s → Re.sub_from n r repl s = Re.sub r repl (drop n s).
Proof.
  revert n. induction s as [|c s IH]; intros n Hn.
  - cbn in Hn. assert (n = 0) as -> by lia. reflexivity.
  - destruct n as [|n]; [reflexivity|].
    cbn [Re.sub_from drop]. apply IH. cbn in Hn. lia.
Qed.

Lemma sub_marker_nil : Re.sub marker_re [] [] = [].
Proof. reflexivity. Qed.

Lemma sub_marker_match body rest :
  body ≠ [] → GT ∉ body →
  Re.sub marker_re [] (LT :: BAR :: body ++ BAR :: GT :: rest)
  = Re.sub marker_re [] rest.
Proof.
  intros Hne Hgt. unfold Re.sub at 1. cbn [Re.sub_from].
  rewrite match_marker_intro by done.
  assert (Hlen : length (LT :: BAR :: body ++ BAR :: GT :: rest) - length rest
                 = S (S (length body + 2))).
  { cbn [length]. rewrite length_app. cbn [length]. lia. }
  rewrite Hlen. cbn [app].
  rewrite sub_from_skip.
  - f_equal. cbn [drop]. rewrite drop_app_add. reflexivity.
  - clear. cbn [length]. rewrite length_app. cbn [length]. lia.
Qed.

Lemma sub_marker_nomatch c s :
  Re.match_ marker_re (c :: s) = None →
  Re.sub marker_re [] (c :: s) = c :: Re.sub marker_re [] s.
Proof. intros H. unfold Re.sub. cbn [Re.sub_from]. by rewrite H. Qed.

(** Where nothing matches, nothing changes. *)
Lemma sub_marker_id s :
  Re.search marker_re s = false → Re.sub marker_re [] s = s.
Proof.
  induction s as [|c s IH]; [done|].
  cbn [Re.search]. destruct (Re.match_ marker_re (c :: s)) eqn:Hm; [done|].
  intros Hs. rewrite sub_marker_nomatch by done. by rewrite IH.
Qed.

Lemma search_marker_no_lt s :
  LT ∉ s → Re.search marker_re s = false.
Proof.
  induction s as [|c s IH]; [done|].
  intros H. apply not_elem_of_cons in H as [Hc Hs].
  cbn [Re.search]. rewrite match_marker_head by done. by apply IH.
Qed.

Lemma count_marker_no_lt s :
  LT ∉ s → Re.count marker_re s = 0.
Proof.
  unfold Re.count. induction s as [|c s IH]; [done|].
  intros H. apply not_elem_of_cons in H as [Hc Hs].
  cbn [Re.count_from]. rewrite match_marker_head by done. by apply IH.
Qed.

End Sub.

(** ** Whitespace *)

Section Whitespace.

Lemma lstrip_length s : length (lstrip s) ≤ length s.
Proof.
  induction s as [|c s IH]; [done|]. cbn [lstrip].
  destruct (is_space c); cbn [length]; lia.
Qed.

Lemma lstrip_drop s : drop (length s - length (lstrip s)) s = lstrip s.
Proof.
  induction s as [|c s IH]; [done|]. cbn [lstrip].
  destruct (is_space c).
  - pose proof (lstrip_length s).
    replace (length (c :: s) - length (lstrip s))
      with (S (length s - length (lstrip s))) by (cbn [length]; lia).
    exact IH.
  - by rewrite Nat.sub_diag.
Qed.

Lemma lstrip_head s c t : lstrip s = c :: t → is_space c = false.
Proof.
  induction s as [|x s IH]; [done|]. cbn [lstrip].
  destruct (is_space x) eqn:Hx; [done|]. by intros [= <- _].
Qed.

Lemma lstrip_id s :
  (∀ c, head s = Some c → is_space c = false) → lstrip s = s.
Proof.
  destruct s as [|x s]; [done|]. intros H. cbn [lstrip].
  by rewrite (H x).
Qed.

Lemma rstrip_last s c : last (rstrip s) = Some c → is_space c = false.
Proof.
  induction s as [|x s IH]; [done|]. cbn [rstrip].
  destruct (rstrip s) as [|y r] eqn:Hr.
  - destruct (is_space x) eqn:Hx; [done|]. by intros [= <-].
  - intros H. apply IH. exact H.
Qed.

Lemma rstrip_id s :
  (∀ c, last s = Some c → is_space c = false) → rstrip s = s.
Proof.
  induction s as [|x s IH]; [done|]. intros H. cbn [rstrip].
  destruct s as [|y s].
  - cbn. by rewrite (H x).
  - rewrite IH; [done|]. intros c Hc. apply H. exact Hc.
Qed.

Lemma rstrip_head s c :
  head s = Some c → is_space c = false → head (rstrip s) = Some c.
Proof.
  destruct s as [|x s]; [done|]. intros [= ->] Hc. cbn [rstrip].
  destruct (rstrip s); [by rewrite Hc|done].
Qed.

Lemma lstrip_snoc s c :
  lstrip (s ++ [c]) =
  match lstrip s with
  | [] => if is_space c then [] else [c]
  | l => l ++ [c]
  end.
Proof.
  induction s as [|x s IH]; cbn [app lstrip].
  - by destruct (is_space c).
  - by destruct (is_space x).
Qed.

(** [rstrip] is [lstrip] read from the other end. *)
Lemma rstrip_rev s : rstrip s = rev (lstrip (rev s)).
Proof.
  induction s as [|c s IH]; [done|]. cbn [rstrip rev].
  rewrite lstrip_snoc.
  assert (Hl : lstrip (rev s) = rev (rstrip s)) by (by rewrite IH, rev_involutive).
  rewrite Hl. destruct (rstrip s) as [|y r].
  - cbn [rev]. by destruct (is_space c).
  - destruct (rev (y :: r)) as [|z l] eqn:Hrev.
    + apply (f_equal (@length N)) in Hrev. rewrite length_rev in Hrev. done.
    + rewrite <- Hrev, rev_unit. by rewrite rev_involutive.
Qed.

Lemma strip_no_edge_space s : no_edge_space (strip s).
Proof.
  unfold strip. split; [|apply rstrip_last].
  intros c Hc. destruct (lstrip s) as [|x t] eqn:Hl; [done|].
  pose proof (lstrip_head _ _ _ Hl) as Hx.
  rewrite (rstrip_head (x :: t) x) in Hc by done. by injection Hc as <-.
Qed.

Lemma strip_id s : no_edge_space s → strip s = s.
Proof.
  intros [Hh Hl]. unfold strip. rewrite lstrip_id by done. by apply rstrip_id.
Qed.

Lemma collapse_true_lstrip s : collapse true s = collapse false (lstrip s).
Proof.
  induction s as [|c s IH]; [done|]. cbn [collapse lstrip].
  destruct (is_space c) eqn:Hc; [done|]. cbn [collapse]. by rewrite Hc.
Qed.

Lemma sub_ws_cons c s :
  Re.sub ws_re [SP] (c :: s) =
  if is_space c then SP :: Re.sub ws_re [SP] (lstrip s)
  else c :: Re.sub ws_re [SP] s.
Proof.
  unfold Re.sub at 1. cbn [Re.sub_from]. rewrite match_ws_unfold.
  destruct (is_space c); [|done].
  pose proof (lstrip_length s).
  replace (length (c :: s) - length (lstrip s))
    with (S (length s - length (lstrip s))) by (cbn [length]; lia).
  cbn [app]. rewrite sub_from_skip by lia. by rewrite lstrip_drop.
Qed.

(** [re.sub(r'\s+', ' ', s)] is the left-to-right collapse. *)
Lemma sub_ws_collapse s : Re.sub ws_re [SP] s = collapse false s.
Proof.
  remember (length s) as n eqn:Hn. revert s Hn.
  induction n as [n IH] using lt_wf_ind. intros [|c s] ->; [done|].
  rewrite sub_ws_cons. cbn [collapse]. destruct (is_space c).
  - rewrite collapse_true_lstrip. f_equal.
    apply (IH (length (lstrip s))); [|done].
    pose proof (lstrip_length s). cbn [length]. lia.
  - f_equal. apply (IH (length s)); [cbn [length]; lia|done].
Qed.

Lemma single_spaced_collapse b s : single_spaced b (collapse b s) = true.
Proof.
  revert b. induction s as [|c s IH]; intros b; [done|].
  cbn [collapse]. destruct (is_space c) eqn:Hc.
  - destruct b; [apply IH|]. cbn [single_spaced].
    change (is_space SP) with true. by rewrite IH.
  - cbn [single_spaced]. by rewrite Hc.
Qed.

Lemma collapse_single_spaced b s :
  single_spaced b s = true → collapse b s = s.
Proof.
  revert b. induction s as [|c s IH]; intros b; [done|].
  cbn [single_spaced collapse]. destruct (is_space c).
  - intros H. apply andb_prop in H as [H Hs]. apply andb_prop in H as [Hc Hb].
    apply N.eqb_eq in Hc as ->. destruct b; [done|]. by rewrite IH.
  - intros H. by rewrite IH.
Qed.

Lemma single_spaced_weaken b s :
  single_spaced b s = true → single_spaced false s = true.
Proof.
  destruct s as [|c s]; [done|]. cbn [single_spaced].
  destruct (is_space c); [|done].
  intros H. apply andb_prop in H as [H Hs]. apply andb_prop in H as [Hc Hb].
  by rewrite Hc, Hs.
Qed.

Lemma single_spaced_lstrip b s :
  single_spaced b s = true → single_spaced false (lstrip s) = true.
Proof.
  revert b. induction s as [|c s IH]; intros b; [done|].
  cbn [lstrip]. destruct (is_space c) eqn:Hc.
  - cbn [single_spaced]. rewrite Hc. intros H.
    apply andb_prop in H as [_ Hs]. by apply (IH true).
  - apply single_spaced_weaken.
Qed.

Lemma single_spaced_rstrip b s :
  single_spaced b s = true → single_spaced b (rstrip s) = true.
Proof.
  revert b. induction s as [|c s IH]; intros b; [done|].
  cbn [single_spaced rstrip]. destruct (is_space c) eqn:Hc.
  - intros H. apply andb_prop in H as [H Hs]. apply IH in Hs.
    destruct (rstrip s) as [|y r]; [done|].
    cbn [single_spaced] in *. by rewrite Hc, H, Hs.
  - intros Hs. apply IH in Hs.
    destruct (rstrip s) as [|y r]; cbn [single_spaced] in *; by rewrite Hc.
Qed.

Lemma squeeze_single_spaced s : single_spaced false (squeeze s) = true.
Proof.
  unfold squeeze, strip. rewrite sub_ws_collapse.
  apply single_spaced_rstrip, (single_spaced_lstrip false),
    single_spaced_collapse.
Qed.

Lemma squeeze_fixed s :
  single_spaced false s = true → no_edge_space s → squeeze s = s.
Proof.
  intros Hs He. unfold squeeze. rewrite sub_ws_collapse.
  rewrite collapse_single_spaced by done. by apply strip_id.
Qed.

Lemma squeeze_idempotent s : squeeze (squeeze s) = squeeze s.
Proof.
  apply squeeze_fixed; [apply squeeze_single_spaced|].
  apply strip_no_edge_space.
Qed.

Lemma elem_of_lstrip x s : x ∈ lstrip s → x ∈ s.
Proof.
  induction s as [|c s IH]; [done|]. cbn [lstrip].
  destruct (is_space c); [|done]. intros H. right. by apply IH.
Qed.

Lemma elem_of_rstrip x s : x ∈ rstrip s → x ∈ s.
Proof.
  induction s as [|c s IH]; [done|]. cbn [rstrip].
  destruct (rstrip s) as [|y r].
  - destruct (is_space c); [by intros ?%elem_of_nil|].
    intros ->%list_elem_of_singleton. left.
  - intros [->|H]%elem_of_cons; [left|right; by apply IH].
Qed.

Lemma elem_of_collapse x b s : x ∈ collapse b s → x = SP ∨ x ∈ s.
Proof.
  revert b. induction s as [|c s IH]; intros b; [by right|].
  cbn [collapse]. destruct (is_space c).
  - destruct b.
    + intros [->|H]%IH; [by left|right; by right].
    + intros [->|[->|H]%IH]%elem_of_cons; [by left|by left|right; by right].
  - intros [->|[->|H]%IH]%elem_of_cons; [right; left|by left|right; by right].
Qed.

Lemma elem_of_squeeze x s : x ∈ squeeze s → x = SP ∨ x ∈ s.
Proof.
  unfold squeeze, strip. rewrite sub_ws_collapse.
  intros H%elem_of_rstrip%elem_of_lstrip. by apply elem_of_collapse in H.
Qed.

End Whitespace.

(** ** The cleaner *)

Section Cleaner.

Lemma clean_unfold t :
  _clean_whisperkit_text t
  = squeeze (Re.sub marker_re [] (Re.sub marker_re [] t)).
Proof. reflexivity. Qed.

Lemma clean_no_edge_space t : no_edge_space (_clean_whisperkit_text t).
Proof. rewrite clean_unfold. apply strip_no_edge_space. Qed.

(** [re.search] finds a marker exactly when [re.findall] does. *)
Lemma count_marker_zero s :
  Re.count marker_re s = 0 ↔ Re.search marker_re s = false.
Proof.
  unfold Re.count. induction s as [|c s IH]; [done|].
  cbn [Re.count_from Re.search].
  destruct (Re.match_ marker_re (c :: s)) as [rest|] eqn:Hm; [|exact IH].
  apply match_marker_elim in Hm as (body & Hs & _ & _). rewrite Hs.
  assert (Hlen : length (LT :: BAR :: body ++ BAR :: GT :: rest) - length rest
                 = S (S (length body + 2))).
  { clear. cbn [length]. rewrite length_app. cbn [length]. lia. }
  rewrite Hlen. done.
Qed.

Lemma sub_marker_plain p s :
  LT ∉ p → Re.sub marker_re [] (p ++ s) = p ++ Re.sub marker_re [] s.
Proof.
  induction p as [|c p IH]; [done|].
  intros H. apply not_elem_of_cons in H as [Hc Hp]. cbn [app].
  rewrite sub_marker_nomatch by (apply match_marker_head; congruence).
  by rewrite IH.
Qed.

Lemma plain_of_no_lt cs : Forall chunk_ok cs → LT ∉ plain_of cs.
Proof.
  unfold plain_of. induction 1 as [|c cs Hc _ IH]; [apply not_elem_of_nil|].
  cbn [map concat]. apply not_elem_of_app. split; [|exact IH].
  destruct c; [exact Hc|apply not_elem_of_nil].
Qed.

Lemma sub_marker_render cs :
  Forall chunk_ok cs → Re.sub marker_re [] (render cs) = plain_of cs.
Proof.
  unfold render, plain_of. induction 1 as [|c cs Hc _ IH]; [done|].
  cbn [map concat]. destruct c as [p|body]; cbn [render_chunk].
  - rewrite sub_marker_plain by exact Hc. by rewrite IH.
  - destruct Hc as [Hne Hgt]. cbn [app]. rewrite <- app_assoc. cbn [app].
    rewrite sub_marker_match by done. exact IH.
Qed.

Lemma clean_render cs :
  Forall chunk_ok cs → _clean_whisperkit_text (render cs) = squeeze (plain_of cs).
Proof.
  intros Hcs. rewrite clean_unfold, sub_marker_render by done.
  rewrite sub_marker_id; [done|].
  by apply search_marker_no_lt, plain_of_no_lt.
Qed.

Lemma clean_fixed t :
  Re.search marker_re (_clean_whisperkit_text t) = false →
  _clean_whisperkit_text (_clean_whisperkit_text t) = _clean_whisperkit_text t.
Proof.
  intros H. rewrite (clean_unfold (_clean_whisperkit_text t)).
  rewrite !sub_marker_id by (rewrite ?sub_marker_id; done).
  rewrite clean_unfold. apply squeeze_idempotent.
Qed.

End Cleaner.

(** ** Computations *)

Section Computations.

Lemma result_bind {A B} (m : M A) (f : A → M B) :
  result (bind m f) =
  match result m with
  | Ok a => result (f a)
  | Raise e => Raise e
  end.
Proof. destruct m as [t [a|e]]; cbn; [|done]. by destruct (f a). Qed.

Lemma effects_bind {A B} (m : M A) (f : A → M B) :
  effects (bind m f) =
  effects m ++ match result m with
               | Ok a => effects (f a)
               | Raise e => []
               end.
Proof.
  destruct m as [t [a|e]]; cbn; [|by rewrite app_nil_r]. by destruct (f a).
Qed.

Lemma result_try_except {A} (m : M A) (h : exn → M A) :
  result (try_except m h) =
  match result m with
  | Ok a => Ok a
  | Raise e => result (h e)
  end.
Proof. destruct m as [t [a|e]]; cbn; [done|]. by destruct (h e). Qed.

Lemma effects_try_except {A} (m : M A) (h : exn → M A) :
  effects (try_except m h) =
  effects m ++ match result m with
               | Ok a => []
               | Raise e => effects (h e)
               end.
Proof.
  destruct m as [t [a|e]]; cbn; [by rewrite app_nil_r|]. by destruct (h e).
Qed.

Lemma result_when b (m : M unit) :
  result m = Ok tt → result (when b m) = Ok tt.
Proof. by destruct b. Qed.

Lemma result_ret {A} (a : A) : result (ret a) = Ok a.
Proof. reflexivity. Qed.

Lemma result_print_plain fmt args : result (print_plain fmt args) = Ok tt.
Proof. reflexivity. Qed.

Lemma result_print_cases fmt args :
  result (print fmt args)
  = if forallb printable_arg args then Ok tt else Raise UnicodeEncodeError.
Proof. unfold print. by destruct (forallb printable_arg args). Qed.

Lemma result_print fmt args :
  forallb printable_arg args = true → result (print fmt args) = Ok tt.
Proof. intros H. by rewrite result_print_cases, H. Qed.


Lemma dict_get_found d key dflt v :
  dict_find d key = Some v → dict_get d key dflt = v.
Proof. unfold dict_get. by intros ->. Qed.


Lemma consume_app tg l1 l2 acc :
  consume tg (l1 ++ l2) acc = bind (consume tg l1 acc) (consume tg l2).
Proof.
  revert acc. induction l1 as [|l l1 IH]; intros acc; cbn [app consume].
  - unfold bind, ret. by destruct (consume tg l2 acc).
  - destruct (on_line tg acc l) as [t [a|e]]; cbn; [|done].
    rewrite IH. destruct (consume tg l1 a) as [t1 [a1|e1]]; cbn.
    + destruct (consume tg l2 a1). by rewrite app_assoc.
    + done.
Qed.

Lemma result_consume_app tg l1 l2 acc :
  result (consume tg (l1 ++ l2) acc) =
  match result (consume tg l1 acc) with
  | Ok a => result (consume tg l2 a)
  | Raise e => Raise e
  end.
Proof. by rewrite consume_app, result_bind. Qed.

Lemma result_consume_cons tg l rest acc :
  result (consume tg (l :: rest) acc) =
  match result (on_line tg acc l) with
  | Ok a => result (consume tg rest a)
  | Raise e => Raise e
  end.
Proof. cbn [consume]. by rewrite result_bind. Qed.

End Computations.

Ltac result_steps :=
  repeat (rewrite ?result_bind, ?result_ret, ?result_print_plain; cbv beta iota).

(** The same through the prints of values that are known to be printable. *)
Ltac value_steps :=
  repeat (result_steps;
          rewrite ?result_print
            by (cbn [forallb printable_arg]; rewrite ?andb_true_r; assumption)).

(** ** One line of the stream *)

Section Lines.

Context (tg : option (list text)).

(** A [done] event whose printed values can be written puts its [text]
    (or, without one, the text so far) in [final_text]. *)
Lemma on_line_done_get fields final_text :
  dict_find fields (str "type") = Some (PStr done_tag) →
  printable (dict_get fields (str "text") final_text) = true →
  printable (dict_get fields (str "language") PNone) = true →
  printable (dict_get fields (str "duration") PNone) = true →
  result (on_line tg final_text (DataJSON (PDict fields)))
  = Ok (dict_get fields (str "text") final_text).
Proof.
  intros Hty Hv Hlang Hdur. unfold on_line, py_get.
  rewrite (dict_get_found _ _ _ _ Hty).
  result_steps.
  change (eq_str (PStr done_tag) delta_tag) with false.
  change (eq_str (PStr done_tag) done_tag) with true. cbv iota.
  value_steps.
  repeat (rewrite result_when by (value_steps; try done;
                                  repeat (rewrite result_when by done;
                                          result_steps); done);
          result_steps).
  done.
Qed.

Lemma on_line_done fields v final_text :
  dict_find fields (str "type") = Some (PStr done_tag) →
  dict_find fields (str "text") = Some v →
  printable v = true →
  printable (dict_get fields (str "language") PNone) = true →
  printable (dict_get fields (str "duration") PNone) = true →
  result (on_line tg final_text (DataJSON (PDict fields))) = Ok v.
Proof.
  intros Hty Htext Hv Hlang Hdur.
  rewrite on_line_done_get; rewrite ?(dict_get_found _ _ _ _ Htext); done.
Qed.

(** A [delta] event appends its cleaned fragment, unless the fragment
    cannot be printed. *)
Lemma on_line_delta fields d acc :
  dict_find fields (str "type") = Some (PStr delta_tag) →
  dict_find fields (str "delta") = Some (PStr d) →
  result (on_line tg (PStr acc) (DataJSON (PDict fields)))
  = if encodable (_clean_whisperkit_text d)
    then Ok (PStr (acc ++ _clean_whisperkit_text d))
    else Raise UnicodeEncodeError.
Proof.
  intros Hty Hdelta. unfold on_line, py_get.
  rewrite (dict_get_found _ _ _ _ Hty), (dict_get_found _ _ _ _ Hdelta).
  result_steps.
  change (eq_str (PStr delta_tag) delta_tag) with true. cbv iota.
  result_steps. cbn [truthy]. case_bool_decide as Hd; cbn [negb].
  - subst d. result_steps. change (_clean_whisperkit_text []) with (@nil N).
    cbn [encodable forallb]. by rewrite app_nil_r.
  - cbn [clean_arg]. result_steps. rewrite result_print_cases.
    cbn [forallb printable_arg printable]. rewrite andb_true_r.
    destruct (encodable (_clean_whisperkit_text d)); by result_steps.
Qed.

(** An event whose [type] is neither tag is printed and nothing else. *)
Lemma on_line_other fields final_text :
  eq_str (dict_get fields (str "type") PNone) delta_tag = false →
  eq_str (dict_get fields (str "type") PNone) done_tag = false →
  on_line tg final_text (DataJSON (PDict fields))
  = ([Print "Event: {}" [V (PDict fields)]], Ok final_text).
Proof.
  intros Hdelta Hdone. unfold on_line, py_get. cbn [bind ret].
  by rewrite Hdelta, Hdone.
Qed.

(** A payload that is not JSON: its stripped text becomes [final_text]
    when it is not empty. *)
Lemma on_line_raw data_str final_text :
  result (on_line tg final_text (DataRaw data_str))
  = Ok (if truthy (PStr (strip data_str)) then PStr (strip data_str)
        else final_text).
Proof.
  unfold on_line. result_steps. destruct (truthy (PStr (strip data_str))).
  - by result_steps.
  - by result_steps.
Qed.

(** Silent lines leave [final_text] as it is and raise nothing. *)
Lemma on_line_silent line final_text :
  silent line → result (on_line tg final_text line) = Ok final_text.
Proof.
  destruct line as [| |line_str|event_data|data_str|f]; cbn [silent]; try done.
  - destruct event_data as [| | | | | |fields]; try done.
    intros [Hdelta Hdone]. by rewrite on_line_other.
  - intros Hstrip. rewrite on_line_raw, Hstrip. done.
Qed.

Lemma consume_silent lines final_text :
  Forall silent lines → result (consume tg lines final_text) = Ok final_text.
Proof.
  induction 1 as [|line lines Hline _ IH]; [done|].
  by rewrite result_consume_cons, on_line_silent.
Qed.

End Lines.

(** ** What is posted *)

Section Posts.

Lemma posts_app t1 t2 : posts (t1 ++ t2) = posts t1 ++ posts t2.
Proof. apply omap_app. Qed.

Lemma posts_bind {A B} (m : M A) (f : A → M B) :
  posts (effects (bind m f)) =
  posts (effects m) ++ match result m with
                       | Ok a => posts (effects (f a))
                       | Raise e => []
                       end.
Proof. rewrite effects_bind, posts_app. by destruct (result m). Qed.

Lemma posts_try_except {A} (m : M A) (h : exn → M A) :
  posts (effects (try_except m h)) =
  posts (effects m) ++ match result m with
                       | Ok a => []
                       | Raise e => posts (effects (h e))
                       end.
Proof. rewrite effects_try_except, posts_app. by destruct (result m). Qed.

Lemma quiet_ret {A} (a : A) : quiet (ret a).
Proof. reflexivity. Qed.

Lemma quiet_raise {A} e : quiet (@raise A e).
Proof. reflexivity. Qed.

Lemma quiet_print_plain fmt args : quiet (print_plain fmt args).
Proof. reflexivity. Qed.

Lemma quiet_print fmt args : quiet (print fmt args).
Proof. unfold print. by destruct (forallb printable_arg args). Qed.

Lemma quiet_print_dump fmt v : quiet (print_dump fmt v).
Proof. unfold print_dump. by destruct (dumpable v). Qed.

Lemma quiet_bind {A B} (m : M A) (f : A → M B) :
  quiet m → (∀ a, quiet (f a)) → quiet (bind m f).
Proof.
  unfold quiet. intros Hm Hf. rewrite posts_bind, Hm.
  destruct (result m); [apply Hf|done].
Qed.

Lemma quiet_when b m : quiet m → quiet (when b m).
Proof. by destruct b. Qed.

Lemma quiet_py_get v key dflt : quiet (py_get v key dflt).
Proof. by destruct v. Qed.

Lemma quiet_py_fixed v : quiet (py_fixed v).
Proof. destruct v; cbn [py_fixed]; try done. by case_match. Qed.

Lemma quiet_py_len v : quiet (py_len v).
Proof. by destruct v. Qed.

Lemma quiet_py_iter v : quiet (py_iter v).
Proof. by destruct v. Qed.

Lemma quiet_py_first3 v : quiet (py_first3 v).
Proof. by destruct v. Qed.

Lemma quiet_clean_arg v : quiet (clean_arg v).
Proof. by destruct v. Qed.

Lemma quiet_iadd_str v s : quiet (iadd_str v s).
Proof. by destruct v. Qed.

Lemma quiet_for_each {A} (items : list A) f :
  (∀ x, quiet (f x)) → quiet (for_each items f).
Proof.
  intros Hf. induction items as [|x items IH]; [done|].
  cbn [for_each]. by apply quiet_bind.
Qed.

End Posts.

Create HintDb quiet.

#[local] Hint Resolve quiet_ret quiet_raise quiet_print_plain quiet_print
  quiet_print_dump quiet_py_get
  quiet_py_fixed quiet_py_len quiet_py_iter quiet_py_first3 quiet_clean_arg
  quiet_iadd_str : quiet.

Ltac quiet_steps :=
  repeat first
    [ progress eauto 2 with quiet
    | apply quiet_bind; [|intros ?]
    | apply quiet_when
    | apply quiet_for_each; intros ?
    | case_match ].

Section Display.

Lemma quiet_show_segment c i segment : quiet (show_segment c i segment).
Proof. unfold show_segment. quiet_steps. Qed.

Lemma quiet_show_segments_from c i segments :
  quiet (show_segments_from c i segments).
Proof.
  revert i. induction segments as [|x segments IH]; intros i; [done|].
  cbn [show_segments_from]. apply quiet_bind; [apply quiet_show_segment|].
  intros _. apply IH.
Qed.

Lemma quiet_show_segments c res : quiet (show_segments c res).
Proof.
  unfold show_segments. quiet_steps. apply quiet_show_segments_from.
Qed.

Lemma quiet_show_word word : quiet (show_word word).
Proof. unfold show_word. quiet_steps. Qed.

Lemma quiet_show_words res : quiet (show_words res).
Proof. unfold show_words. quiet_steps. Qed.

Lemma quiet_on_line tg final_text line : quiet (on_line tg final_text line).
Proof. unfold on_line. quiet_steps. Qed.

Lemma quiet_consume tg lines final_text : quiet (consume tg lines final_text).
Proof.
  revert final_text. induction lines as [|l lines IH]; intros ft; [done|].
  cbn [consume]. apply quiet_bind; [apply quiet_on_line|done].
Qed.

End Display.

#[local] Hint Resolve quiet_show_segment quiet_show_segments_from
  quiet_show_segments quiet_show_word quiet_show_words quiet_on_line
  quiet_consume : quiet.

(** ** The three operations *)

Ltac run_steps :=
  repeat (rewrite ?result_bind, ?posts_bind, ?result_ret, ?result_print_plain;
          cbn [open_rb post print_plain ret raise effects result fst snd posts omap app];
          cbv beta iota).

Ltac effects_steps :=
  repeat (rewrite ?result_bind, ?effects_bind, ?result_ret, ?result_print_plain;
          cbn [open_rb post print_plain ret raise effects result fst snd app];
          cbv beta iota).

Section Operations.

Context (self : WhisperKitClient) (w : world).

Lemma result_open_rb path :
  result (open_rb w path) = if readable w path then Ok tt else Raise OSError.
Proof. reflexivity. Qed.

Lemma result_post r :
  result (post w r) = match server w r with
                      | Some resp => Ok resp
                      | None => Raise RequestException
                      end.
Proof. reflexivity. Qed.

Lemma posts_try_except_quiet {A} (m : M A) (h : exn → M A) :
  (∀ e, quiet (h e)) → posts (effects (try_except m h)) = posts (effects m).
Proof.
  intros Hh. rewrite posts_try_except.
  destruct (result m); [|rewrite Hh]; by rewrite app_nil_r.
Qed.

Lemma posts_post_then {A} r (f : response → M A) :
  (∀ resp, quiet (f resp)) → posts (effects (bind (post w r) f)) = [r].
Proof.
  intros Hf. rewrite posts_bind, result_post.
  cbn [post effects fst posts omap app].
  destruct (server w r); [by rewrite Hf|done].
Qed.

(** Every exception is caught: the operations return. *)
Lemma try_except_returns {A} (m : M A) fmt (a : A) :
  ∃ v, result (try_except m (fun e => print_plain fmt [E e] ;; ret a)) = Ok v.
Proof.
  rewrite result_try_except. destruct (result m) as [v|e]; [by exists v|].
  exists a. by result_steps.
Qed.

Lemma non_streaming_returns audio_path language model response_format tg debug include :
  ∃ v, result (_transcribe_non_streaming self w audio_path language model
                 response_format tg debug include) = Ok v.
Proof. apply try_except_returns. Qed.

Lemma streaming_returns audio_path language model response_format tg :
  ∃ v, result (_transcribe_streaming self w audio_path language model
                 response_format tg) = Ok v.
Proof. apply try_except_returns. Qed.



Lemma non_streaming_posts audio_path language model response_format tg debug include :
  posts (effects (_transcribe_non_streaming self w audio_path language model
                    response_format tg debug include))
  = if readable w audio_path
    then [non_streaming_request self audio_path language model response_format
            tg include]
    else [].
Proof.
  unfold _transcribe_non_streaming.
  rewrite posts_try_except_quiet by (intros e; quiet_steps).
  rewrite posts_bind, result_open_rb.
  cbn [open_rb effects fst posts omap].
  destruct (readable w audio_path); cbn [app]; [|done].
  apply posts_post_then. intros response. quiet_steps.
Qed.

(** What [_transcribe_streaming] returns and posts, from the outcome of
    the loop. *)
Lemma streaming_run audio_path language model response_format tg lines :
  streams w (streaming_request self audio_path language model response_format tg)
          lines →
  result (_transcribe_streaming self w audio_path language model response_format tg)
  = match result (consume tg lines (PStr [])) with
    | Ok v =>
        if truthy v then Ok v
        else result (_transcribe_non_streaming self w audio_path language model
                       response_format tg false None)
    | Raise e => Ok PNone
    end
  ∧ posts (effects (_transcribe_streaming self w audio_path language model
                      response_format tg))
    = streaming_request self audio_path language model response_format tg
      :: match result (consume tg lines (PStr [])) with
         | Ok v =>
             if truthy v then []
             else posts (effects (_transcribe_non_streaming self w audio_path
                                    language model response_format tg false None))
         | Raise e => []
         end.
Proof.
  intros [Hread (resp & Hserver & Hstatus & Hlines)]. cbn in Hread.
  unfold _transcribe_streaming.
  rewrite result_try_except, posts_try_except_quiet by (intros e; quiet_steps).
  run_steps. rewrite Hread. run_steps. rewrite Hserver. run_steps.
  rewrite Hstatus. change (negb (200 =? 200)%Z) with false. run_steps.
  rewrite Hlines, (quiet_consume tg lines). cbn [app].
  destruct (result (consume tg lines (PStr []))) as [v|e]; [|done].
  destruct (truthy v); cbn [negb]; [done|]. run_steps.
  destruct (non_streaming_returns audio_path language model response_format
              tg false None) as [v' Hv'].
  by rewrite Hv'.
Qed.

Lemma streaming_effects audio_path language model response_format tg lines :
  streams w (streaming_request self audio_path language model response_format tg)
          lines →
  effects (_transcribe_streaming self w audio_path language model response_format tg)
  = Open audio_path
    :: Print "Starting streaming transcription..." []
    :: Post (streaming_request self audio_path language model response_format tg)
    :: Print "Receiving stream data..." []
    :: effects (consume tg lines (PStr []))
    ++ match result (consume tg lines (PStr [])) with
       | Ok v =>
           if truthy v then []
           else Print "No text received from stream, falling back to non-streaming" []
                :: effects (_transcribe_non_streaming self w audio_path language
                              model response_format tg false None)
       | Raise e => [Print "Streaming transcription failed: {}" [E e]]
       end.
Proof.
  intros [Hread (resp & Hserver & Hstatus & Hlines)]. cbn in Hread.
  unfold _transcribe_streaming. rewrite effects_try_except.
  effects_steps. rewrite Hread. effects_steps. rewrite Hserver. effects_steps.
  rewrite Hstatus. change (negb (200 =? 200)%Z) with false. effects_steps.
  rewrite Hlines. do 4 f_equal. rewrite <- app_assoc. f_equal.
  destruct (result (consume tg lines (PStr []))) as [v|e]; [|done].
  destruct (truthy v); cbn [negb]; [done|]. effects_steps.
  destruct (non_streaming_returns audio_path language model response_format
              tg false None) as [v' Hv'].
  rewrite Hv'. by rewrite app_nil_r.
Qed.

End Operations.

(** ** Runs of deltas *)

Section Deltas.

Context (tg : option (list text)).

Lemma on_line_delta_event d acc :
  encodable (_clean_whisperkit_text d) = true →
  result (on_line tg (PStr acc) (DataJSON (delta_event d)))
  = Ok (PStr (acc ++ _clean_whisperkit_text d)).
Proof.
  intros Hd. unfold delta_event.
  rewrite (on_line_delta tg _ d acc) by reflexivity. by rewrite Hd.
Qed.


End Deltas.

(** ** Texts of markers and plain stretches *)

Section Openings.

Lemma opens_false_cons c s :
  opens (c :: s) = false ↔ ¬ (c = LT ∧ head s = Some BAR) ∧ opens s = false.
Proof.
  unfold opens. cbn [is_infix startswith]. rewrite orb_false_iff.
  assert (Hs : (c =? LT)%N && startswith s [BAR] = false
               ↔ ¬ (c = LT ∧ head s = Some BAR)); [|by rewrite Hs].
  destruct s as [|y r]; cbn [startswith head].
  - rewrite andb_false_r. split; [by intros _ [_ ?]|done].
  - replace (startswith r []) with true by by destruct r.
    rewrite andb_true_r.
    destruct (N.eqb_spec c LT) as [->|Hc], (N.eqb_spec y BAR) as [->|Hy];
      cbn [andb]; split; try done.
    + intros H. by destruct H.
    + intros _ [_ [= ?]]. done.
    + intros _ [? _]. done.
    + intros _ [? _]. done.
Qed.

Lemma opens_app_r p s : opens (p ++ s) = false → opens s = false.
Proof.
  induction p as [|c p IH]; [done|]. cbn [app].
  intros [_ H]%opens_false_cons. by apply IH.
Qed.

Lemma match_marker_needs_open c s :
  ¬ (c = LT ∧ head s = Some BAR) → Re.match_ marker_re (c :: s) = None.
Proof.
  intros H. rewrite match_marker_unfold. destruct s as [|y r]; [done|].
  destruct (N.eqb_spec c LT) as [->|]; [|done].
  destruct (N.eqb_spec y BAR) as [->|]; [|done]. by destruct H.
Qed.

Lemma search_marker_no_open s : opens s = false → Re.search marker_re s = false.
Proof.
  induction s as [|c s IH]; [done|].
  intros [Hc Hs]%opens_false_cons.
  cbn [Re.search]. rewrite match_marker_needs_open by done. by apply IH.
Qed.

(** A marker starts with [<]: when a text of chunks starts with a bar, so
    does its plain text. *)
Lemma head_render_bar cs :
  head (render cs) = Some BAR → head (plain_of cs) = Some BAR.
Proof.
  unfold render, plain_of. induction cs as [|c cs IH]; [done|].
  cbn [map concat]. destruct c as [p|body]; cbn [render_chunk].
  - destruct p as [|x p]; [exact IH|done].
  - done.
Qed.

Lemma sub_marker_stretch p s s' :
  opens (p ++ s') = false →
  (head s = Some BAR → head s' = Some BAR) →
  Re.sub marker_re [] (p ++ s) = p ++ Re.sub marker_re [] s.
Proof.
  intros Hopen Hhead. induction p as [|c p IH]; [done|].
  cbn [app] in *. apply opens_false_cons in Hopen as [Hc Hp].
  rewrite sub_marker_nomatch, IH; [done|done|].
  apply match_marker_needs_open. intros [-> Hbar]. apply Hc. split; [done|].
  destruct p as [|x p]; [by apply Hhead|done].
Qed.

(** One pass removes the markers of a text of chunks when its plain
    stretches, put together, hold no [<|]. *)
Lemma sub_marker_chunks cs :
  Forall marker_ok cs → opens (plain_of cs) = false →
  Re.sub marker_re [] (render cs) = plain_of cs.
Proof.
  unfold render, plain_of. induction 1 as [|c cs Hc _ IH]; [done|].
  cbn [map concat]. destruct c as [p|body]; cbn [render_chunk]; intros Hopen.
  - rewrite (sub_marker_stretch p _ _ Hopen) by apply head_render_bar.
    by rewrite IH by by apply opens_app_r in Hopen.
  - destruct Hc as [Hne Hgt]. cbn [app]. rewrite <- app_assoc. cbn [app].
    rewrite sub_marker_match by done. by apply IH.
Qed.

Lemma opens_lstrip s : opens s = false → opens (lstrip s) = false.
Proof.
  induction s as [|c s IH]; [done|]. cbn [lstrip].
  destruct (is_space c); [|done]. intros [_ H]%opens_false_cons. by apply IH.
Qed.

Lemma head_rstrip s c : head (rstrip s) = Some c → head s = Some c.
Proof.
  destruct s as [|x s]; [done|]. cbn [rstrip].
  destruct (rstrip s); [by destruct (is_space x)|done].
Qed.

Lemma opens_rstrip s : opens s = false → opens (rstrip s) = false.
Proof.
  induction s as [|c s IH]; [done|].
  intros [Hc Hs]%opens_false_cons. specialize (IH Hs).
  assert (H : opens (c :: rstrip s) = false).
  { apply opens_false_cons. split; [|done].
    intros [-> Hbar]. apply Hc. split; [done|]. by apply head_rstrip. }
  cbn [rstrip]. destruct (rstrip s) as [|y r'] eqn:Hr; [|done].
  by destruct (is_space c).
Qed.

Lemma head_collapse_bar s :
  head (collapse false s) = Some BAR → head s = Some BAR.
Proof.
  destruct s as [|x s]; [done|]. cbn [collapse].
  destruct (is_space x); [|done]. cbn. by intros [=].
Qed.

Lemma opens_collapse b s : opens s = false → opens (collapse b s) = false.
Proof.
  revert b. induction s as [|c s IH]; intros b; [done|].
  intros [Hc Hs]%opens_false_cons. cbn [collapse].
  destruct (is_space c) eqn:Hsp.
  - destruct b; [by apply IH|].
    apply opens_false_cons. split; [|by apply IH]. by intros [[=] _].
  - apply opens_false_cons. split; [|by apply IH].
    intros [-> Hbar]. apply Hc. split; [done|]. by apply head_collapse_bar.
Qed.

Lemma opens_squeeze s : opens s = false → opens (squeeze s) = false.
Proof.
  intros H. unfold squeeze, strip. rewrite sub_ws_collapse.
  by apply opens_rstrip, opens_lstrip, opens_collapse.
Qed.

(** Two passes over a text that the first pass turns into markers and
    plain stretches without [<|]. *)
Lemma clean_exposed t cs :
  Forall marker_ok cs → opens (plain_of cs) = false →
  t = render cs ∨ Re.sub marker_re [] t = render cs →
  _clean_whisperkit_text t = squeeze (plain_of cs).
Proof.
  intros Hcs Hopen Ht. rewrite clean_unfold. destruct Ht as [-> | ->].
  - rewrite sub_marker_chunks by done.
    by rewrite sub_marker_id by by apply search_marker_no_open.
  - by rewrite sub_marker_chunks.
Qed.

End Openings.

(** * The properties of the specification *)

(** ** The cleaner: markers and whitespace *)

(** C3, as stated, fails on the code: a marker that only appears once two
    others around it have been removed survives the two passes.  The
    cleaned form of [<<<|a|>|b|>|c|>] is the marker [<|c|>]. *)
Lemma nested_marker_survives :
  _clean_whisperkit_text (str "<<<|a|>|b|>|c|>") = str "<|c|>"
  ∧ Re.count marker_re (_clean_whisperkit_text (str "<<<|a|>|b|>|c|>")) = 1.
Proof. split; vm_compute; reflexivity. Qed.

(** C3, amended: for every text made of markers [<|body|>] (body not
    empty, without [>]) and of plain stretches in which no [<|] appears,
    also once the markers between them are taken out, and for every text
    that one removal pass turns into such a text (a marker whose removal
    exposes one further marker, as in [<<|a|>|b|>]), the cleaned output is
    the plain text with its whitespace squeezed; it holds no [<|], hence
    zero occurrences of the marker pattern. *)
Theorem clean_removes_markers (t : text) (cs : list chunk) :
  Forall marker_ok cs →
  opens (plain_of cs) = false →
  t = render cs ∨ Re.sub marker_re [] t = render cs →
  _clean_whisperkit_text t = squeeze (plain_of cs)
  ∧ opens (_clean_whisperkit_text t) = false
  ∧ Re.count marker_re (_clean_whisperkit_text t) = 0.
Proof.
  intros Hcs Hopen Ht. rewrite (clean_exposed t cs) by done.
  assert (H : opens (squeeze (plain_of cs)) = false) by by apply opens_squeeze.
  split_and!; [done|done|]. by apply count_marker_zero, search_marker_no_open.
Qed.

Lemma clean_removes_markers_witness :
  let cs := [Marker (str "b"); Plain (str " a <  b")] in
  Re.sub marker_re [] (str "<<|a|>|b|> a <  b") = render cs
  ∧ _clean_whisperkit_text (str "<<|a|>|b|> a <  b") = str "a < b"
  ∧ Re.count marker_re (_clean_whisperkit_text (str "<<|a|>|b|> a <  b")) = 0.
Proof.
  intros cs.
  assert (Hcs : Forall marker_ok cs) by (apply (bool_decide_unpack _); vm_compute; exact I).
  assert (Hsub : Re.sub marker_re [] (str "<<|a|>|b|> a <  b") = render cs)
    by (vm_compute; reflexivity).
  destruct (clean_removes_markers (str "<<|a|>|b|> a <  b") cs Hcs eq_refl
              (or_intror Hsub)) as (H1 & _ & H3).
  split_and!; [exact Hsub| |exact H3].
  rewrite H1. vm_compute. reflexivity.
Defined.

(** C4, as stated, fails on the code: cleaning [<<<|a|>|b|>|c|>] gives
    [<|c|>], and cleaning that gives the empty text. *)
Lemma clean_not_idempotent :
  _clean_whisperkit_text (_clean_whisperkit_text (str "<<<|a|>|b|>|c|>"))
  ≠ _clean_whisperkit_text (str "<<<|a|>|b|>|c|>").
Proof. vm_compute. discriminate. Qed.

(** C4, amended: cleaning is idempotent on every text whose cleaned form
    holds no marker, and the whitespace step (runs to one space, then
    strip) is idempotent on every text. *)
Theorem clean_idempotent_without_marker (t : text) :
  (Re.count marker_re (_clean_whisperkit_text t) = 0 →
   _clean_whisperkit_text (_clean_whisperkit_text t) = _clean_whisperkit_text t)
  ∧ squeeze (squeeze t) = squeeze t.
Proof.
  split; [|apply squeeze_idempotent].
  intros H. by apply clean_fixed, count_marker_zero.
Qed.

Lemma clean_idempotent_without_marker_witness :
  _clean_whisperkit_text (_clean_whisperkit_text (str "<|0.00|>  Hello   world <|4.00|>"))
  = _clean_whisperkit_text (str "<|0.00|>  Hello   world <|4.00|>").
Proof.
  apply (proj1 (clean_idempotent_without_marker
                  (str "<|0.00|>  Hello   world <|4.00|>"))).
  vm_compute. reflexivity.
Defined.

(** ** The stream consumer *)

(** C10, as stated, fails on the code: the progress line is printed before
    the fragment is appended, and a fragment that holds a lone surrogate
    (the JSON escape [\ud800]) cannot be printed.  The print raises, the
    fragment is not appended, and the client gives up the text it had and
    returns [None]. *)
Lemma unprintable_delta_is_not_appended :
  result (on_line None (PStr (str "Hello")) (DataJSON (delta_event [55296%N])))
  = Raise UnicodeEncodeError
  ∧ result (_transcribe_streaming local_client
              (canned_world [DataJSON (delta_event (str "Hello"));
                             DataJSON (delta_event [55296%N])]
                            (PDict [(str "text", PStr (str "hi"))]))
              (str "a.wav") (str "") (str "tiny") (str "json") None)
    = Ok PNone.
Proof. split; vm_compute; reflexivity. Qed.

(** C10, amended: a [delta] event whose cleaned fragment can be printed
    (it holds no lone surrogate) appends the cleaned fragment to the
    accumulated text, and otherwise raises before anything is appended;
    the cleaned fragment has no whitespace at either end, so consecutive
    fragments are joined without a separator: [<|0.00|> Hello] then
    [ world] accumulate as [Helloworld]. *)
Theorem delta_appends_stripped_fragment
    (tg : option (list text)) (fields : list (text * pyval)) (acc d : text) :
  dict_find fields (str "type") = Some (PStr delta_tag) →
  dict_find fields (str "delta") = Some (PStr d) →
  result (on_line tg (PStr acc) (DataJSON (PDict fields)))
  = (if encodable (_clean_whisperkit_text d)
     then Ok (PStr (acc ++ _clean_whisperkit_text d))
     else Raise UnicodeEncodeError)
  ∧ no_edge_space (_clean_whisperkit_text d)
  ∧ result (consume tg [DataJSON (delta_event (str "<|0.00|> Hello"));
                        DataJSON (delta_event (str " world"))] (PStr []))
    = Ok (PStr (str "Helloworld")).
Proof.
  intros Hty Hd. split_and!.
  - by apply on_line_delta.
  - apply clean_no_edge_space.
  - rewrite !result_consume_cons, !on_line_delta_event by reflexivity. reflexivity.
Qed.

Lemma delta_appends_stripped_fragment_witness :
  result (on_line None (PStr (str "Hello"))
            (DataJSON (PDict [(str "type", PStr delta_tag);
                              (str "delta", PStr (str " world<|4.00|>"));
                              (str "logprobs", PList [])])))
  = Ok (PStr (str "Helloworld")).
Proof.
  refine (eq_trans
            (proj1 (delta_appends_stripped_fragment None _ (str "Hello")
                      (str " world<|4.00|>") _ _)) _).
  - reflexivity.
  - reflexivity.
  - vm_compute. reflexivity.
Defined.

(** C1, as stated, fails on the code: a [done] event whose [text] is empty
    makes the client fall back and return the text of the non-streaming
    answer, a line that is not JSON after the [done] event replaces its
    text, a JSON payload that is not an object before it ends the loop
    with [None], and so does a [done] event whose text or language holds a
    lone surrogate, which cannot be printed. *)
Lemma done_text_not_always_returned :
  result (_transcribe_streaming local_client
            (canned_world [DataJSON (delta_event (str "Hello"));
                           DataJSON (done_event (str ""))]
                          (PDict [(str "text", PStr (str "hi"))]))
            (str "a.wav") (str "") (str "tiny") (str "json") None)
  = Ok (PStr (str "hi"))
  ∧ result (_transcribe_streaming local_client
              (canned_world [DataJSON (done_event (str "Hello")); DataRaw (str "bye")]
                            PNone)
              (str "a.wav") (str "") (str "tiny") (str "json") None)
    = Ok (PStr (str "bye"))
  ∧ result (_transcribe_streaming local_client
              (canned_world [DataJSON (PInt 42); DataJSON (done_event (str "Hello"))]
                            PNone)
              (str "a.wav") (str "") (str "tiny") (str "json") None)
    = Ok PNone
  ∧ result (_transcribe_streaming local_client
              (canned_world [DataJSON (done_event [72; 55296; 105]%N)] PNone)
              (str "a.wav") (str "") (str "tiny") (str "json") None)
    = Ok PNone
  ∧ result (_transcribe_streaming local_client
              (canned_world [DataJSON (PDict [(str "type", PStr done_tag);
                                              (str "text", PStr (str "Hello"));
                                              (str "language", PStr [55296%N])])]
                            PNone)
              (str "a.wav") (str "") (str "tiny") (str "json") None)
    = Ok PNone.
Proof. split_and!; vm_compute; reflexivity. Qed.

(** C1, amended: when a [done] event carries a string [text], its text,
    language and duration can be printed (no lone surrogate), no earlier
    line raised and only silent lines follow it (blank lines, lines that
    are not data, JSON objects with another type tag, payloads of
    whitespace), the loop ends with [final_text] equal to that field,
    whatever was accumulated before; the client returns it when it is not
    empty. *)
Theorem done_event_sets_final_text
    (self : WhisperKitClient) (w : world)
    (audio_path language model response_format : text)
    (tg : option (list text)) (pre : list sse_line)
    (fields : list (text * pyval)) (t : text) (acc : pyval)
    (quiet_lines : list sse_line) :
  streams w (streaming_request self audio_path language model response_format tg)
          (pre ++ DataJSON (PDict fields) :: quiet_lines) →
  result (consume tg pre (PStr [])) = Ok acc →
  dict_find fields (str "type") = Some (PStr done_tag) →
  dict_find fields (str "text") = Some (PStr t) →
  encodable t = true →
  printable (dict_get fields (str "language") PNone) = true →
  printable (dict_get fields (str "duration") PNone) = true →
  Forall silent quiet_lines →
  result (consume tg (pre ++ DataJSON (PDict fields) :: quiet_lines) (PStr []))
  = Ok (PStr t)
  ∧ (t ≠ [] →
     result (_transcribe_streaming self w audio_path language model response_format tg)
     = Ok (PStr t)).
Proof.
  intros Hw Hpre Hty Htext Ht Hlang Hdur Hquiet.
  assert (Hloop : result (consume tg (pre ++ DataJSON (PDict fields) :: quiet_lines)
                            (PStr []))
                  = Ok (PStr t)).
  { rewrite result_consume_app, Hpre, result_consume_cons.
    rewrite (on_line_done tg fields (PStr t)) by done.
    by apply consume_silent. }
  split; [exact Hloop|]. intros Hne.
  destruct (streaming_run self w _ _ _ _ _ _ Hw) as [-> _]. rewrite Hloop.
  cbn [truthy]. by rewrite bool_decide_eq_false_2.
Qed.

Lemma done_event_sets_final_text_witness :
  result (_transcribe_streaming local_client
            (canned_world [DataJSON (delta_event (str "<|0.00|> Hello"));
                           DataJSON (delta_event (str " world<|4.00|>"));
                           DataJSON (PDict [(str "type", PStr done_tag);
                                            (str "text", PStr (str "Hello world"));
                                            (str "language", PStr (str "en"));
                                            (str "duration", PFloat 4 0)]);
                           Blank]
                          PNone)
            (str "a.wav") (str "") (str "tiny") (str "verbose_json") None)
  = Ok (PStr (str "Hello world")).
Proof.
  refine (proj2 (done_event_sets_final_text local_client _ (str "a.wav") (str "")
                   (str "tiny") (str "verbose_json") None
                   [DataJSON (delta_event (str "<|0.00|> Hello"));
                    DataJSON (delta_event (str " world<|4.00|>"))]
                   _ (str "Hello world") (PStr (str "Helloworld")) [Blank]
                   _ _ _ _ _ _ _ _) _).
  - split; [reflexivity|]. eexists. split_and!; reflexivity.
  - vm_compute. reflexivity.
  - reflexivity.
  - reflexivity.
  - reflexivity.
  - reflexivity.
  - reflexivity.
  - apply Forall_cons_2; [exact I|apply Forall_nil_2].
  - discriminate.
Defined.




(** C5, as stated, fails on the code: a stream without any [delta] or
    [done] event whose only data line is not JSON ends with that line as
    the text, and one whose only data line is JSON but not an object ends
    with an exception; in both the client posts nothing but the streaming
    request. *)
Lemma raw_line_prevents_fallback :
  let run lines := _transcribe_streaming local_client
                     (canned_world lines (PDict [(str "text", PStr (str "hi"))]))
                     (str "a.wav") (str "") (str "tiny") (str "json") None in
  let request := streaming_request local_client (str "a.wav") (str "")
                   (str "tiny") (str "json") None in
  result (run [DataRaw (str "hello")]) = Ok (PStr (str "hello"))
  ∧ posts (effects (run [DataRaw (str "hello")])) = [request]
  ∧ result (run [DataJSON (PInt 42)]) = Ok PNone
  ∧ posts (effects (run [DataJSON (PInt 42)])) = [request].
Proof. split_and!; vm_compute; reflexivity. Qed.

(** C5, amended: when the loop ends without an exception and with an empty
    accumulated text, the client prints the fallback notice, posts exactly
    one non-streaming request for the same audio file and returns what
    [_transcribe_non_streaming] returns.  The loop ends so on every stream
    of silent lines: blank lines, lines that are not data, JSON objects
    with another type tag, payloads of whitespace. *)
Theorem empty_stream_falls_back_once
    (self : WhisperKitClient) (w : world)
    (audio_path language model response_format : text)
    (tg : option (list text)) (lines : list sse_line) (v : pyval) :
  streams w (streaming_request self audio_path language model response_format tg)
          lines →
  result (consume tg lines (PStr [])) = Ok v →
  truthy v = false →
  let run := _transcribe_streaming self w audio_path language model
               response_format tg in
  result run
  = result (_transcribe_non_streaming self w audio_path language model
              response_format tg false None)
  ∧ posts (effects run)
    = [streaming_request self audio_path language model response_format tg;
       non_streaming_request self audio_path language model response_format tg None]
  ∧ files (non_streaming_request self audio_path language model response_format
             tg None) = audio_path
  ∧ Print "No text received from stream, falling back to non-streaming" []
    ∈ effects run
  ∧ (∀ quiet_lines, Forall silent quiet_lines →
     result (consume tg quiet_lines (PStr [])) = Ok (PStr [])).
Proof.
  intros Hw Hloop Hv run.
  pose proof (fun ls => consume_silent tg ls (PStr [])) as Hsilent.
  destruct (streaming_run self w _ _ _ _ _ _ Hw) as [Hres Hposts].
  pose proof (streaming_effects self w _ _ _ _ _ _ Hw) as Heff.
  rewrite Hloop, Hv in Hres, Hposts, Heff.
  destruct Hw as [Hread _]. cbn in Hread.
  rewrite non_streaming_posts, Hread in Hposts.
  split_and!; [exact Hres|exact Hposts|reflexivity| |exact Hsilent].
  unfold run. rewrite Heff. do 4 right. apply elem_of_app. right. left.
Qed.

Lemma empty_stream_falls_back_once_witness :
  let run := _transcribe_streaming local_client
               (canned_world [Blank; NotData (str ": keep-alive");
                              DataJSON (PDict [(str "type", PStr (str "ping"))])]
                             (PDict [(str "text", PStr (str "hi"))]))
               (str "a.wav") (str "") (str "tiny") (str "json") None in
  result run = Ok (PStr (str "hi"))
  ∧ length (posts (effects run)) = 2.
Proof.
  intros run.
  destruct (empty_stream_falls_back_once local_client
              (canned_world [Blank; NotData (str ": keep-alive");
                             DataJSON (PDict [(str "type", PStr (str "ping"))])]
                            (PDict [(str "text", PStr (str "hi"))]))
              (str "a.wav") (str "") (str "tiny") (str "json") None
              [Blank; NotData (str ": keep-alive");
               DataJSON (PDict [(str "type", PStr (str "ping"))])]
              (PStr []))
    as (Hres & Hposts & _ & _ & _).
  - split; [reflexivity|]. eexists. split_and!; reflexivity.
  - vm_compute. reflexivity.
  - reflexivity.
  - split.
    + unfold run. rewrite Hres. vm_compute. reflexivity.
    + unfold run. rewrite Hposts. reflexivity.
Defined.

(** C6, as stated, fails on the code: the payload is stripped before it is
    taken, so it is not the accumulated text verbatim, a payload of
    whitespace only is not taken at all, and a payload on which
    [json.loads] fails with another exception than JSONDecodeError (here
    RecursionError, on brackets nested too deep) ends the stream: the
    client returns [None]. *)
Lemma raw_payload_not_verbatim :
  result (on_line None (PStr (str "abc")) (DataRaw (str " hi ")))
  = Ok (PStr (str "hi"))
  ∧ str "hi" ≠ str " hi "
  ∧ result (on_line None (PStr (str "abc")) (DataRaw (str "  ")))
    = Ok (PStr (str "abc"))
  ∧ result (on_line None (PStr (str "abc")) (DataFault TooDeep))
    = Raise RecursionError
  ∧ result (_transcribe_streaming local_client
              (canned_world [DataJSON (delta_event (str "abc")); DataFault TooDeep]
                            (PDict [(str "text", PStr (str "hi"))]))
              (str "a.wav") (str "") (str "tiny") (str "json") None)
    = Ok PNone.
Proof.
  split_and!; [vm_compute; reflexivity|discriminate|vm_compute; reflexivity..].
Qed.

(** C6, amended: a payload on which [json.loads] raises JSONDecodeError is
    stripped of the whitespace at its ends and, when something is left,
    replaces the accumulated text as it is (no marker or whitespace
    cleaning); a payload of whitespace only leaves the text unchanged.
    That failure does not end the loop: the following lines are consumed.
    A payload on which [json.loads] raises another exception
    (RecursionError, ValueError) does end it, and the client returns
    [None].  A JSON object whose type tag is neither of the two known ones
    is printed and leaves the text unchanged. *)
Theorem raw_payload_replaces_text
    (tg : option (list text)) (final_text : pyval) (data_str : text)
    (rest : list sse_line) (fields : list (text * pyval)) (f : loads_fault) :
  let taken := if truthy (PStr (strip data_str)) then PStr (strip data_str)
               else final_text in
  result (on_line tg final_text (DataRaw data_str)) = Ok taken
  ∧ result (consume tg (DataRaw data_str :: rest) final_text)
    = result (consume tg rest taken)
  ∧ result (consume tg (DataFault f :: rest) final_text) = Raise (fault_exn f)
  ∧ (∀ self w audio_path language model response_format before acc,
       streams w (streaming_request self audio_path language model response_format tg)
               (before ++ DataFault f :: rest) →
       result (consume tg before (PStr [])) = Ok acc →
       result (_transcribe_streaming self w audio_path language model
                 response_format tg) = Ok PNone)
  ∧ (eq_str (dict_get fields (str "type") PNone) delta_tag = false →
     eq_str (dict_get fields (str "type") PNone) done_tag = false →
     on_line tg final_text (DataJSON (PDict fields))
     = ([Print "Event: {}" [V (PDict fields)]], Ok final_text)).
Proof.
  intros taken. split_and!.
  - apply on_line_raw.
  - by rewrite result_consume_cons, on_line_raw.
  - by rewrite result_consume_cons.
  - intros self w audio_path language model response_format before acc Hw Hpre.
    destruct (streaming_run self w _ _ _ _ _ _ Hw) as [-> _].
    by rewrite result_consume_app, Hpre, result_consume_cons.
  - apply on_line_other.
Qed.

Lemma raw_payload_replaces_text_witness :
  on_line None (PStr (str "abc"))
    (DataJSON (PDict [(str "type", PStr (str "transcript.text.segment"))]))
  = ([Print "Event: {}"
        [V (PDict [(str "type", PStr (str "transcript.text.segment"))])]],
     Ok (PStr (str "abc"))).
Proof.
  apply (proj2 (proj2 (proj2 (proj2
           (raw_payload_replaces_text None (PStr (str "abc")) []
              [] [(str "type", PStr (str "transcript.text.segment"))] TooDeep))))).
  - vm_compute. reflexivity.
  - vm_compute. reflexivity.
Defined.

(** ** Requests and failures *)

Section Failures.

Context (self : WhisperKitClient) (w : world).





Lemma translate_posts audio_path model response_format tg :
  posts (effects (translate self w audio_path model response_format tg))
  = if readable w audio_path
    then [translation_request self audio_path model response_format tg]
    else [].
Proof.
  unfold translate.
  rewrite posts_try_except_quiet by (intros e; quiet_steps).
  rewrite posts_bind, result_open_rb.
  cbn [open_rb effects fst posts omap].
  destruct (readable w audio_path); cbn [app]; [|done].
  apply posts_post_then. intros response. quiet_steps.
Qed.

(** Of the [include] items only the last one is left in the form. *)
Lemma include_last_wins audio_path language model response_format tg
    (items : list text) (x : text) :
  data (non_streaming_request self audio_path language model response_format tg
          (Some (items ++ [x])))
  !! str "include[]" = Some x.
Proof.
  cbn [non_streaming_request data].
  replace (truthy_list (Some (items ++ [x]))) with true by (by destruct items).
  cbn [default from_option id]. rewrite fold_left_app. cbn [fold_left].
  apply lookup_insert_eq.
Qed.

End Failures.



(** C8: whatever [timestamp_granularities] the caller passes, the request
    [translate] posts has no [timestamp_granularities[]] field: its form
    fields are [model] and [response_format] only. *)
Theorem translate_omits_timestamp_granularities
    (self : WhisperKitClient) (w : world)
    (audio_path model response_format : text) (tg : option (list text)) :
  posts (effects (translate self w audio_path model response_format tg))
  = (if readable w audio_path
     then [translation_request self audio_path model response_format tg]
     else [])
  ∧ data (translation_request self audio_path model response_format tg)
    !! str "timestamp_granularities[]" = None
  ∧ dom (data (translation_request self audio_path model response_format tg))
    = {[str "model"; str "response_format"]}
  ∧ Forall (fun r => data r !! str "timestamp_granularities[]" = None)
      (posts (effects (translate self w audio_path model response_format tg))).
Proof.
  assert (Hnone : data (translation_request self audio_path model response_format tg)
                  !! str "timestamp_granularities[]" = None).
  { cbn [translation_request data].
    rewrite !lookup_insert_ne by (by apply (bool_decide_unpack _)).
    apply lookup_empty. }
  split_and!.
  - apply translate_posts.
  - exact Hnone.
  - cbn [translation_request data]. rewrite !dom_insert_L, dom_empty_L.
    set_solver.
  - rewrite translate_posts. destruct (readable w audio_path).
    + apply Forall_cons_2; [exact Hnone|apply Forall_nil_2].
    + apply Forall_nil_2.
Qed.

(** C9 fails on the code: [data] is a dict, and each [include] item is
    assigned to the same key [include[]], so only the last item of the
    list is sent.  With [include = ["logprobs", "segments"]] the form
    holds [include[] = segments] and no field for [logprobs]. *)
Theorem include_keeps_only_last_item :
  let r := non_streaming_request local_client (str "a.wav") (str "")
             (str "tiny") (str "json") None
             (Some [str "logprobs"; str "segments"]) in
  data r !! str "include[]" = Some (str "segments")
  ∧ (∀ key, data r !! key ≠ Some (str "logprobs"))
  ∧ size (data r) = 3.
Proof.
  cbn zeta.
  cbn [non_streaming_request data truthy truthy_list default from_option id fold_left].
  change (negb (bool_decide (str "" = []))) with false. cbv iota.
  split_and!.
  - apply lookup_insert_eq.
  - intros key. rewrite insert_insert_eq.
    rewrite !lookup_insert. repeat case_decide; discriminate.
  - rewrite insert_insert_eq.
    rewrite !map_size_insert_None, map_size_empty; [done|..].
    + apply lookup_empty.
    + rewrite lookup_insert_ne by (by apply (bool_decide_unpack _)).
      apply lookup_empty.
    + rewrite !lookup_insert_ne by (by apply (bool_decide_unpack _)).
      apply lookup_empty.
Qed.

(** * Further properties of the code *)

(** ** The cleaner *)

Section CleanerShape.

Lemma single_spaced_space b s c :
  single_spaced b s = true → c ∈ s → is_space c = true → c = SP.
Proof.
  revert b. induction s as [|x s IH]; intros b; [by intros _ ?%elem_of_nil|].
  cbn [single_spaced]. destruct (is_space x) eqn:Hx.
  - intros H. apply andb_prop in H as [H Hs]. apply andb_prop in H as [Hc _].
    apply N.eqb_eq in Hc as ->.
    intros [->|Hin]%elem_of_cons Hsp; [done|]. by apply (IH true).
  - intros Hs [->|Hin]%elem_of_cons Hc; [congruence|]. by apply (IH false).
Qed.

Lemma single_spaced_no_run b s l1 x y l2 :
  single_spaced b s = true → s = l1 ++ x :: y :: l2 →
  is_space x = true → is_space y = false.
Proof.
  revert b s. induction l1 as [|z l1 IH]; intros b s Hs -> Hx.
  - cbn [app single_spaced] in Hs. rewrite Hx in Hs.
    apply andb_prop in Hs as [_ Hs]. destruct (is_space y); [|done].
    apply andb_prop in Hs as [Hs _]. apply andb_prop in Hs as [_ Hs]. done.
  - cbn [app single_spaced] in Hs. destruct (is_space z).
    + apply andb_prop in Hs as [_ Hs]. by apply (IH true _ Hs).
    + by apply (IH false _ Hs).
Qed.

Lemma collapse_length b s : length (collapse b s) ≤ length s.
Proof.
  revert b. induction s as [|c s IH]; intros b; [done|].
  cbn [collapse]. destruct (is_space c); [destruct b|]; cbn [length].
  - specialize (IH true). lia.
  - specialize (IH true). lia.
  - specialize (IH false). lia.
Qed.

Lemma rstrip_length s : length (rstrip s) ≤ length s.
Proof.
  induction s as [|c s IH]; [done|]. cbn [rstrip].
  destruct (rstrip s); [destruct (is_space c)|]; cbn [length] in *; lia.
Qed.

Lemma squeeze_length s : length (squeeze s) ≤ length s.
Proof.
  unfold squeeze, strip. rewrite sub_ws_collapse.
  pose proof (rstrip_length (lstrip (collapse false s))).
  pose proof (lstrip_length (collapse false s)).
  pose proof (collapse_length false s). lia.
Qed.

Lemma sub_marker_cons c s :
  Re.sub marker_re [] (c :: s) =
  match Re.match_ marker_re (c :: s) with
  | Some rest => Re.sub marker_re [] rest
  | None => c :: Re.sub marker_re [] s
  end.
Proof.
  destruct (Re.match_ marker_re (c :: s)) as [rest|] eqn:Hm.
  - apply match_marker_elim in Hm as (body & Hs & Hne & Hgt).
    rewrite Hs. by apply sub_marker_match.
  - by apply sub_marker_nomatch.
Qed.

Lemma match_marker_shorter s rest :
  Re.match_ marker_re s = Some rest → length rest < length s.
Proof.
  intros (body & -> & _ & _)%match_marker_elim.
  cbn [length]. rewrite length_app. cbn [length]. lia.
Qed.

Lemma sub_marker_length s : length (Re.sub marker_re [] s) ≤ length s.
Proof.
  remember (length s) as n eqn:Hn. revert s Hn.
  induction n as [n IH] using lt_wf_ind. intros [|c s] ->; [done|].
  rewrite sub_marker_cons.
  destruct (Re.match_ marker_re (c :: s)) as [rest|] eqn:Hm.
  - apply match_marker_shorter in Hm.
    specialize (IH (length rest) Hm rest eq_refl). lia.
  - cbn [length] in *. specialize (IH (length s) (Nat.lt_succ_diag_r _) s eq_refl).
    lia.
Qed.

Lemma sub_marker_shorter s :
  Re.search marker_re s = true → length (Re.sub marker_re [] s) < length s.
Proof.
  induction s as [|c s IH]; [done|].
  cbn [Re.search]. rewrite sub_marker_cons.
  destruct (Re.match_ marker_re (c :: s)) as [rest|] eqn:Hm.
  - intros _. apply match_marker_shorter in Hm.
    pose proof (sub_marker_length rest). lia.
  - intros Hs. specialize (IH Hs). cbn [length]. lia.
Qed.

Lemma match_marker_needs_gt s : GT ∉ s → Re.match_ marker_re s = None.
Proof.
  intros Hgt. destruct (Re.match_ marker_re s) as [rest|] eqn:Hm; [|done].
  apply match_marker_elim in Hm as (body & -> & _ & _).
  exfalso. apply Hgt. do 2 right. apply elem_of_app. right. right. left.
Qed.

Lemma search_marker_no_gt s : GT ∉ s → Re.search marker_re s = false.
Proof.
  induction s as [|c s IH]; [done|].
  intros H. cbn [Re.search]. rewrite match_marker_needs_gt by done.
  apply IH. intros Hin. apply H. by right.
Qed.

Lemma lstrip_all_space s : Forall (fun c => is_space c = true) s → lstrip s = [].
Proof. induction 1 as [|c s Hc _ IH]; [done|]. cbn [lstrip]. by rewrite Hc. Qed.

Lemma collapse_all_space b s :
  Forall (fun c => is_space c = true) s →
  Forall (fun c => is_space c = true) (collapse b s).
Proof.
  intros H. revert b. induction H as [|c s Hc _ IH]; intros b; [done|].
  cbn [collapse]. rewrite Hc. destruct b; [apply IH|].
  apply Forall_cons_2; [reflexivity|apply IH].
Qed.

Lemma squeeze_all_space s : Forall (fun c => is_space c = true) s → squeeze s = [].
Proof.
  intros H. unfold squeeze, strip. rewrite sub_ws_collapse.
  by rewrite lstrip_all_space by (by apply collapse_all_space).
Qed.

End CleanerShape.

(** X1: in the cleaned text every whitespace character is the space
    U+0020 and is followed by a character that is not whitespace, and
    there is none at either end: no tab, no newline, no run of spaces. *)
Theorem clean_output_is_single_spaced (t : text) :
  (∀ c, c ∈ _clean_whisperkit_text t → is_space c = true → c = SP)
  ∧ (∀ l1 x y l2, _clean_whisperkit_text t = l1 ++ x :: y :: l2 →
       is_space x = true → is_space y = false)
  ∧ no_edge_space (_clean_whisperkit_text t).
Proof.
  pose proof (squeeze_single_spaced (Re.sub marker_re [] (Re.sub marker_re [] t)))
    as Hs.
  rewrite <- clean_unfold in Hs. split_and!.
  - intros c. by apply (single_spaced_space false).
  - intros l1 x y l2. by apply (single_spaced_no_run false).
  - apply clean_no_edge_space.
Qed.

(** X2: cleaning never makes a text longer, and makes it shorter whenever
    it holds a marker. *)
Theorem clean_never_longer (t : text) :
  length (_clean_whisperkit_text t) ≤ length t
  ∧ (Re.search marker_re t = true → length (_clean_whisperkit_text t) < length t).
Proof.
  rewrite clean_unfold.
  pose proof (squeeze_length (Re.sub marker_re [] (Re.sub marker_re [] t))).
  pose proof (sub_marker_length (Re.sub marker_re [] t)).
  pose proof (sub_marker_length t).
  split; [lia|]. intros Hs%sub_marker_shorter. lia.
Qed.

Lemma clean_never_longer_witness :
  length (_clean_whisperkit_text (str "<|0.00|> Hello")) < length (str "<|0.00|> Hello").
Proof.
  apply (proj2 (clean_never_longer (str "<|0.00|> Hello"))).
  vm_compute. reflexivity.
Defined.

(** X3: the texts the cleaner leaves as they are are exactly those that
    hold no marker, whose whitespace is single spaces between other
    characters, and that have no whitespace at either end. *)
Theorem clean_fixed_points (t : text) :
  _clean_whisperkit_text t = t
  ↔ Re.search marker_re t = false
    ∧ single_spaced false t = true
    ∧ no_edge_space t.
Proof.
  split.
  - intros Heq. split_and!.
    + destruct (Re.search marker_re t) eqn:Hs; [|done].
      pose proof (sub_marker_shorter t Hs) as Hlt.
      pose proof (squeeze_length (Re.sub marker_re [] (Re.sub marker_re [] t))) as H1.
      pose proof (sub_marker_length (Re.sub marker_re [] t)) as H2.
      rewrite <- clean_unfold, Heq in H1. lia.
    + rewrite <- Heq at 1. rewrite clean_unfold. apply squeeze_single_spaced.
    + rewrite <- Heq. apply clean_no_edge_space.
  - intros (Hm & Hs & He). rewrite clean_unfold, !sub_marker_id by
      (rewrite ?sub_marker_id; done).
    by apply squeeze_fixed.
Qed.

(** X4: a text without [<], or without [>], holds no marker for the
    cleaner: an unterminated [<|...] is kept, and only the whitespace is
    cleaned. *)
Theorem clean_without_delimiter (t : text) :
  LT ∉ t ∨ GT ∉ t →
  _clean_whisperkit_text t = squeeze t.
Proof.
  intros H. assert (Hs : Re.search marker_re t = false).
  { destruct H; [by apply search_marker_no_lt|by apply search_marker_no_gt]. }
  rewrite clean_unfold, !sub_marker_id by (rewrite ?sub_marker_id; done). done.
Qed.

Lemma clean_without_delimiter_witness :
  _clean_whisperkit_text (str "a  <|0.00 b") = str "a <|0.00 b".
Proof.
  rewrite (clean_without_delimiter (str "a  <|0.00 b")).
  - vm_compute. reflexivity.
  - right. apply (bool_decide_unpack _). vm_compute. exact I.
Defined.

(** X5: a text made of markers and whitespace only is cleaned to the empty
    text. *)
Theorem clean_markers_and_space_is_empty (cs : list chunk) :
  Forall chunk_ok cs →
  Forall (fun c => is_space c = true) (plain_of cs) →
  _clean_whisperkit_text (render cs) = [].
Proof.
  intros Hcs Hsp. rewrite clean_render by done. by apply squeeze_all_space.
Qed.

Lemma clean_markers_and_space_is_empty_witness :
  _clean_whisperkit_text
    (render [Marker (str "startoftranscript"); Marker (str "en"); Plain (str " ");
             Marker (str "0.00")]) = [].
Proof.
  apply clean_markers_and_space_is_empty.
  - apply (bool_decide_unpack _). vm_compute. exact I.
  - apply (bool_decide_unpack _). vm_compute. exact I.
Defined.

Lemma clean_output_is_single_spaced_witness :
  _clean_whisperkit_text (str "a   b") = str "a b" ∧ is_space 98%N = false.
Proof.
  split; [vm_compute; reflexivity|].
  apply (proj1 (proj2 (clean_output_is_single_spaced (str "a   b")))
           [97%N] SP 98%N []).
  - vm_compute. reflexivity.
  - reflexivity.
Defined.

(** ** The stream loop *)

Section LoopShape.

Context (tg : option (list text)).



Lemma dict_get_missing d key dflt :
  dict_find d key = None → dict_get d key dflt = dflt.
Proof. unfold dict_get. by intros ->. Qed.

Lemma on_line_not_object v final_text :
  (∀ d, v ≠ PDict d) →
  result (on_line tg final_text (DataJSON v)) = Raise AttributeError.
Proof. intros Hv. destruct v; try done. by destruct (Hv d). Qed.

End LoopShape.

(** X6: silent lines (blank lines, lines that are not data, JSON objects
    with another type tag, payloads of whitespace) can be put anywhere in
    the stream without changing the text the loop ends with. *)
Theorem silent_lines_change_nothing
    (tg : option (list text)) (before quiet_lines after : list sse_line)
    (final_text : pyval) :
  Forall silent quiet_lines →
  result (consume tg (before ++ quiet_lines ++ after) final_text)
  = result (consume tg (before ++ after) final_text).
Proof.
  intros Hq. rewrite !result_consume_app.
  destruct (result (consume tg before final_text)) as [v|e]; [|done].
  by rewrite result_consume_app, consume_silent.
Qed.

Lemma silent_lines_change_nothing_witness :
  result (consume None ([DataJSON (delta_event (str "Hello"))]
                        ++ [Blank; NotData (str ": ping"); DataRaw (str " ");
                            DataJSON (PDict [(str "type", PStr (str "ping"))])]
                        ++ [DataJSON (delta_event (str "!"))]) (PStr []))
  = Ok (PStr (str "Hello!")).
Proof.
  rewrite (silent_lines_change_nothing None).
  - vm_compute. reflexivity.
  - repeat apply Forall_cons_2; try apply Forall_nil_2; cbn [silent]; done.
Defined.

(** X7: a line that raises ends the whole operation: whatever text was
    accumulated is lost, the client returns [None], prints the exception
    and posts nothing after the streaming request (there is no fallback).
    A line that is not UTF-8 raises, and so does every JSON payload that
    is not an object. *)
Theorem raising_line_loses_the_text
    (self : WhisperKitClient) (w : world)
    (audio_path language model response_format : text)
    (tg : option (list text)) (before after : list sse_line) (bad : sse_line)
    (acc : pyval) (e : exn) :
  streams w (streaming_request self audio_path language model response_format tg)
          (before ++ bad :: after) →
  result (consume tg before (PStr [])) = Ok acc →
  result (on_line tg acc bad) = Raise e →
  let run := _transcribe_streaming self w audio_path language model
               response_format tg in
  result run = Ok PNone
  ∧ posts (effects run)
    = [streaming_request self audio_path language model response_format tg]
  ∧ last (effects run) = Some (Print "Streaming transcription failed: {}" [E e])
  ∧ result (on_line tg acc Undecodable) = Raise UnicodeDecodeError
  ∧ (∀ v, (∀ d, v ≠ PDict d) →
       result (on_line tg acc (DataJSON v)) = Raise AttributeError).
Proof.
  intros Hw Hpre Hbad run.
  assert (Hloop : result (consume tg (before ++ bad :: after) (PStr [])) = Raise e).
  { by rewrite result_consume_app, Hpre, result_consume_cons, Hbad. }
  destruct (streaming_run self w _ _ _ _ _ _ Hw) as [Hres Hposts].
  pose proof (streaming_effects self w _ _ _ _ _ _ Hw) as Heff.
  rewrite Hloop in Hres, Hposts, Heff.
  split_and!; [done|done| |done|].
  - unfold run. rewrite Heff.
    rewrite !last_cons, last_app. by cbn.
  - intros v Hv. by apply on_line_not_object.
Qed.

Lemma raising_line_loses_the_text_witness :
  result (_transcribe_streaming local_client
            (canned_world [DataJSON (delta_event (str "Hello"));
                           DataJSON (PList []);
                           DataJSON (done_event (str "Hello world"))]
                          (PDict [(str "text", PStr (str "hi"))]))
            (str "a.wav") (str "") (str "tiny") (str "json") None)
  = Ok PNone.
Proof.
  refine (proj1 (raising_line_loses_the_text local_client _ (str "a.wav") (str "")
                   (str "tiny") (str "json") None
                   [DataJSON (delta_event (str "Hello"))]
                   [DataJSON (done_event (str "Hello world"))]
                   (DataJSON (PList [])) (PStr (str "Hello")) AttributeError _ _ _)).
  - split; [reflexivity|]. eexists. split_and!; reflexivity.
  - vm_compute. reflexivity.
  - reflexivity.
Defined.

(** X8: an event without its payload field changes nothing: a [done]
    event without a [text] key keeps the accumulated text (when that text
    and the language and duration of the event can be printed), and a
    [delta] event whose [delta] is missing or falsy (empty string, null,
    0, empty list) keeps it and prints nothing. *)
Theorem event_without_payload_keeps_text
    (tg : option (list text)) (fields : list (text * pyval)) (final_text : pyval) :
  (dict_find fields (str "type") = Some (PStr done_tag) →
   dict_find fields (str "text") = None →
   printable final_text = true →
   printable (dict_get fields (str "language") PNone) = true →
   printable (dict_get fields (str "duration") PNone) = true →
   result (on_line tg final_text (DataJSON (PDict fields))) = Ok final_text)
  ∧ (dict_find fields (str "type") = Some (PStr delta_tag) →
     truthy (dict_get fields (str "delta") (PStr [])) = false →
     on_line tg final_text (DataJSON (PDict fields)) = ([], Ok final_text)).
Proof.
  split.
  - intros Hty Htext Hft Hlang Hdur.
    rewrite on_line_done_get; rewrite ?(dict_get_missing _ _ final_text Htext); done.
  - intros Hty Hdelta. unfold on_line, py_get.
    rewrite (dict_get_found _ _ _ _ Hty). cbn [bind ret].
    change (eq_str (PStr delta_tag) delta_tag) with true. cbv iota.
    by rewrite Hdelta.
Qed.

Lemma event_without_payload_keeps_text_witness :
  result (on_line None (PStr (str "Hello"))
            (DataJSON (PDict [(str "type", PStr done_tag);
                              (str "language", PStr (str "en"))])))
  = Ok (PStr (str "Hello")).
Proof.
  apply (proj1 (event_without_payload_keeps_text None
                  [(str "type", PStr done_tag); (str "language", PStr (str "en"))]
                  (PStr (str "Hello")))).
  - reflexivity.
  - reflexivity.
  - reflexivity.
  - reflexivity.
  - reflexivity.
Defined.



(** ** Lines on the wire *)

Section WireLines.

Context (json_loads : text → loads).

Lemma startswith_app prefix s : startswith (prefix ++ s) prefix = true.
Proof.
  induction prefix as [|c prefix IH]; [by destruct s|].
  cbn [app startswith]. by rewrite N.eqb_refl, IH.
Qed.

Lemma classify_data payload :
  classify json_loads (Some (str "data: " ++ payload))
  = match json_loads payload with
    | Loaded event_data => DataJSON event_data
    | Malformed => DataRaw payload
    | Fault f => DataFault f
    end.
Proof.
  unfold classify.
  change (str "data: " ++ payload)
    with (100%N :: ([97; 116; 97; 58; 32]%N ++ payload)) at 1.
  cbv iota. by rewrite (startswith_app (str "data: ") payload).
Qed.

Lemma classify_other_silent line :
  startswith line (str "data: ") = false → silent (classify json_loads (Some line)).
Proof. destruct line as [|c line]; intros Hs; cbn [classify]; by rewrite ?Hs. Qed.

End WireLines.

(** X10: the loop reads a line as an event only when it starts with
    [data: ], space included.  On such a line it goes by what [json.loads]
    makes of exactly the rest: the event, the stripped raw text on a
    JSONDecodeError, the end of the stream on another exception.  A stream
    in which no line has the prefix (a server that writes [data:] without
    the space) brings no text: the client falls back to the non-streaming
    request. *)
Theorem lines_without_prefix_are_ignored
    (self : WhisperKitClient) (w : world)
    (audio_path language model response_format : text)
    (tg : option (list text)) (json_loads : text → loads) (raw : list text) :
  streams w (streaming_request self audio_path language model response_format tg)
          (map (fun line => classify json_loads (Some line)) raw) →
  Forall (fun line => startswith line (str "data: ") = false) raw →
  result (consume tg (map (fun line => classify json_loads (Some line)) raw) (PStr []))
  = Ok (PStr [])
  ∧ result (_transcribe_streaming self w audio_path language model response_format tg)
    = result (_transcribe_non_streaming self w audio_path language model
                response_format tg false None)
  ∧ (∀ payload final_text,
       result (on_line tg final_text
                 (classify json_loads (Some (str "data: " ++ payload))))
       = match json_loads payload with
         | Loaded event_data => result (on_line tg final_text (DataJSON event_data))
         | Malformed =>
             Ok (if truthy (PStr (strip payload)) then PStr (strip payload)
                 else final_text)
         | Fault f => Raise (fault_exn f)
         end).
Proof.
  intros Hw Hraw.
  assert (Hloop : result (consume tg (map (fun line => classify json_loads (Some line))
                                         raw) (PStr []))
                  = Ok (PStr [])).
  { apply consume_silent, Forall_map. eapply Forall_impl; [exact Hraw|].
    intros line. apply classify_other_silent. }
  split_and!; [exact Hloop| |].
  - destruct (streaming_run self w _ _ _ _ _ _ Hw) as [-> _]. by rewrite Hloop.
  - intros payload final_text. rewrite classify_data.
    destruct (json_loads payload); [reflexivity|apply on_line_raw|reflexivity].
Qed.

Lemma lines_without_prefix_are_ignored_witness :
  let lines := map (fun line => classify (fun _ => Loaded (PDict [])) (Some line))
                 [str "data:{}"; str ": ping"] in
  result (_transcribe_streaming local_client
            (canned_world lines (PDict [(str "text", PStr (str "hi"))]))
            (str "a.wav") (str "") (str "tiny") (str "json") None)
  = Ok (PStr (str "hi")).
Proof.
  intros lines.
  refine (eq_trans
            (proj1 (proj2 (lines_without_prefix_are_ignored local_client
                             (canned_world lines (PDict [(str "text", PStr (str "hi"))]))
                             (str "a.wav") (str "") (str "tiny") (str "json") None
                             (fun _ => Loaded (PDict [])) [str "data:{}"; str ": ping"]
                             _ _))) _).
  - split; [reflexivity|]. eexists. split_and!; reflexivity.
  - repeat apply Forall_cons_2; try apply Forall_nil_2; reflexivity.
  - vm_compute. reflexivity.
Defined.

(** ** The form fields *)

Section Forms.

Lemma include_fold_lookup (items : list text) (data : gmap text text) key :
  fold_left (fun data include_item => <[str "include[]" := include_item]> data)
            items data !! key
  = if bool_decide (key = str "include[]")
    then match last items with
         | Some x => Some x
         | None => data !! key
         end
    else data !! key.
Proof.
  case_bool_decide as Hk.
  - subst key. destruct items as [|x items _] using rev_ind; [done|].
    rewrite fold_left_app, last_snoc. apply lookup_insert_eq.
  - revert data. induction items as [|x items IH] using rev_ind; intros data; [done|].
    rewrite fold_left_app. cbn [fold_left]. by rewrite lookup_insert_ne.
Qed.

End Forms.

Ltac distinct_keys := apply (bool_decide_unpack _); vm_compute; exact I.

(** The two forms of a transcription differ by the [stream] field. *)
Lemma streaming_data_insert
    (self : WhisperKitClient)
    (audio_path language model response_format : text) (tg : option (list text)) :
  let streaming := streaming_request self audio_path language model response_format tg in
  let fallback :=
    non_streaming_request self audio_path language model response_format tg None in
  data streaming = <[str "stream" := str "true"]> (data fallback)
  ∧ data fallback = delete (str "stream") (data streaming)
  ∧ data fallback !! str "stream" = None
  ∧ url streaming = url fallback
  ∧ files streaming = files fallback.
Proof.
  cbn zeta.
  assert (Hnone : data (non_streaming_request self audio_path language model
                          response_format tg None) !! str "stream" = None).
  { cbn [non_streaming_request data truthy_list].
    destruct (truthy (PStr language)), (truthy_list tg);
      rewrite ?lookup_insert_ne by distinct_keys; apply lookup_empty. }
  assert (Hins : data (streaming_request self audio_path language model
                         response_format tg)
                 = <[str "stream" := str "true"]>
                     (data (non_streaming_request self audio_path language model
                              response_format tg None))).
  { cbn [non_streaming_request streaming_request data truthy_list].
    destruct (truthy (PStr language)), (truthy_list tg);
      repeat (rewrite (insert_insert_ne _ (str "stream")) by distinct_keys);
      reflexivity. }
  split_and!; [exact Hins| |exact Hnone|reflexivity|reflexivity].
  rewrite Hins, delete_insert_eq. symmetry. by apply delete_id.
Qed.

(** X11: the form of the streaming request is the form of the
    non-streaming request for the same arguments plus [stream = true];
    both go to the same URL with the same file.  So the fallback request
    is the streaming request without its [stream] field. *)
Theorem streaming_form_adds_stream
    (self : WhisperKitClient)
    (audio_path language model response_format : text) (tg : option (list text)) :
  let streaming := streaming_request self audio_path language model response_format tg in
  let fallback :=
    non_streaming_request self audio_path language model response_format tg None in
  data streaming = <[str "stream" := str "true"]> (data fallback)
  ∧ data fallback = delete (str "stream") (data streaming)
  ∧ data fallback !! str "stream" = None
  ∧ url streaming = url fallback
  ∧ files streaming = files fallback.
Proof. apply streaming_data_insert. Qed.

(** The lookups of the non-streaming form. *)
Lemma non_streaming_form_lookup
    (self : WhisperKitClient)
    (audio_path language model response_format : text)
    (tg include : option (list text)) :
  let form :=
    data (non_streaming_request self audio_path language model response_format
            tg include) in
  form !! str "model" = Some model
  ∧ form !! str "response_format" = Some response_format
  ∧ form !! str "language" = (if bool_decide (language = []) then None else Some language)
  ∧ form !! str "timestamp_granularities[]"
    = (if truthy_list tg then Some (join (str ",") (default [] tg)) else None)
  ∧ form !! str "include[]" = (include ≫= last)
  ∧ (∀ key, key ∉ [str "model"; str "response_format"; str "language";
                   str "timestamp_granularities[]"; str "include[]"] →
       form !! key = None).
Proof.
  cbn zeta. cbn [non_streaming_request data truthy].
  assert (Hinc : ∀ (d : gmap text text) key,
            (if truthy_list include
             then fold_left (fun data include_item =>
                               <[str "include[]" := include_item]> data)
                            (default [] include) d
             else d) !! key
            = if bool_decide (key = str "include[]")
              then match include ≫= last with
                   | Some x => Some x
                   | None => d !! key
                   end
              else d !! key).
  { intros d key. destruct include as [[|x items]|]; cbn [truthy_list];
      try (by case_bool_decide).
    rewrite include_fold_lookup. done. }
  split_and!.
  - rewrite Hinc. rewrite bool_decide_eq_false_2 by (intros H; by vm_compute in H).
    destruct (negb (bool_decide (language = []))), (truthy_list tg);
      rewrite ?lookup_insert_ne by distinct_keys; apply lookup_insert_eq.
  - rewrite Hinc. rewrite bool_decide_eq_false_2 by (intros H; by vm_compute in H).
    destruct (negb (bool_decide (language = []))), (truthy_list tg);
      rewrite ?lookup_insert_ne by distinct_keys; apply lookup_insert_eq.
  - rewrite Hinc. rewrite bool_decide_eq_false_2 by (intros H; by vm_compute in H).
    case_bool_decide as Hl; cbn [negb]; destruct (truthy_list tg);
      rewrite ?lookup_insert_ne by distinct_keys;
      rewrite ?lookup_insert_eq, ?lookup_empty; done.
  - rewrite Hinc. rewrite bool_decide_eq_false_2 by (intros H; by vm_compute in H).
    destruct (truthy_list tg); [apply lookup_insert_eq|].
    destruct (negb (bool_decide (language = [])));
      rewrite ?lookup_insert_ne by distinct_keys; apply lookup_empty.
  - rewrite Hinc. rewrite bool_decide_eq_true_2 by done.
    destruct (include ≫= last); [done|].
    destruct (negb (bool_decide (language = []))), (truthy_list tg);
      rewrite ?lookup_insert_ne by distinct_keys; apply lookup_empty.
  - intros key Hkey. rewrite Hinc.
    rewrite !not_elem_of_cons in Hkey.
    destruct Hkey as (H1 & H2 & H3 & H4 & H5 & _).
    rewrite bool_decide_eq_false_2 by done.
    destruct (negb (bool_decide (language = []))), (truthy_list tg);
      rewrite ?lookup_insert_ne by done; apply lookup_empty.
Qed.

(** X12: the form of the non-streaming request, field by field: [model]
    and [response_format] always; [language] when it is not empty;
    [timestamp_granularities[]] when the list is not empty, joined with
    commas; [include[]] when the list is not empty, holding its last item;
    never [stream], and no other field. *)
Theorem non_streaming_form_fields
    (self : WhisperKitClient)
    (audio_path language model response_format : text)
    (tg include : option (list text)) :
  let form :=
    data (non_streaming_request self audio_path language model response_format
            tg include) in
  form !! str "model" = Some model
  ∧ form !! str "response_format" = Some response_format
  ∧ form !! str "language" = (if bool_decide (language = []) then None else Some language)
  ∧ form !! str "timestamp_granularities[]"
    = (if truthy_list tg then Some (join (str ",") (default [] tg)) else None)
  ∧ form !! str "include[]" = (include ≫= last)
  ∧ (∀ key, key ∉ [str "model"; str "response_format"; str "language";
                   str "timestamp_granularities[]"; str "include[]"] →
       form !! key = None).
Proof. apply non_streaming_form_lookup. Qed.

Lemma non_streaming_form_fields_witness :
  data (non_streaming_request local_client (str "a.wav") (str "en") (str "tiny")
          (str "json") (Some [str "word"; str "segment"]) None)
  !! str "prompt" = None.
Proof.
  apply (proj2 (proj2 (proj2 (proj2 (proj2
           (non_streaming_form_fields local_client (str "a.wav") (str "en")
              (str "tiny") (str "json") (Some [str "word"; str "segment"]) None)))))).
  distinct_keys.
Defined.

(** ** The operations *)

Section OperationsShape.

Context (self : WhisperKitClient) (w : world).

Lemma try_except_ok {A} (m : M A) (h : exn → M A) v :
  result m = Ok v → try_except m h = m.
Proof. destruct m as [t [a|e]]; by intros [=]. Qed.

Lemma streaming_posts audio_path language model response_format tg :
  posts (effects (_transcribe_streaming self w audio_path language model
                    response_format tg))
  = if readable w audio_path then
      streaming_request self audio_path language model response_format tg
      :: match server w (streaming_request self audio_path language model
                           response_format tg) with
         | Some resp =>
             if negb (status_code resp =? 200)%Z then []
             else match result (consume tg (iter_lines resp) (PStr [])) with
                  | Ok v =>
                      if truthy v then []
                      else [non_streaming_request self audio_path language model
                              response_format tg None]
                  | Raise e => []
                  end
         | None => []
         end
    else [].
Proof.
  unfold _transcribe_streaming.
  rewrite posts_try_except_quiet by (intros e; quiet_steps).
  run_steps. destruct (readable w audio_path) eqn:Hread; [|done].
  run_steps. f_equal.
  destruct (server w _) as [resp|]; [|done].
  destruct (negb (status_code resp =? 200)%Z); run_steps; [done|].
  rewrite (quiet_consume tg (iter_lines resp)). cbn [app].
  destruct (result (consume tg (iter_lines resp) (PStr []))) as [v|e]; [|done].
  destruct (truthy v); cbn [negb]; [done|]. run_steps.
  by rewrite non_streaming_posts, Hread.
Qed.

Lemma result_show_segments_bad c d seg rest s :
  dict_find d (str "segments") = Some (PList (PDict seg :: rest)) →
  dict_find seg (str "start") = Some (PStr s) →
  result (show_segments c (PDict d)) = Raise ValueError.
Proof.
  intros Hsegs Hstart. unfold show_segments, py_get.
  rewrite (dict_get_found _ _ _ _ Hsegs). result_steps.
  cbn [truthy when py_len py_first3 take]. result_steps.
  cbn [show_segments_from]. result_steps.
  unfold show_segment, py_get. rewrite (dict_get_found _ _ _ _ Hstart).
  by result_steps.
Qed.

End OperationsShape.

(** X13: when the audio file cannot be opened, no request is posted: each
    operation prints the failure and returns [None]. *)
Theorem unreadable_file_posts_nothing
    (self : WhisperKitClient) (w : world)
    (audio_path language model response_format : text)
    (tg : option (list text)) (debug : bool) (include : option (list text)) :
  readable w audio_path = false →
  transcribe self w audio_path language model false response_format tg debug include
  = ([Open audio_path; Print "Non-streaming transcription failed: {}" [E OSError]],
     Ok PNone)
  ∧ transcribe self w audio_path language model true response_format tg debug include
    = ([Open audio_path; Print "Streaming transcription failed: {}" [E OSError]],
       Ok PNone)
  ∧ translate self w audio_path model response_format tg
    = ([Open audio_path; Print "Translation failed: {}" [E OSError]], Ok PNone).
Proof.
  intros Hread. split_and!.
  - unfold transcribe, _transcribe_non_streaming, open_rb. by rewrite Hread.
  - unfold transcribe, _transcribe_streaming, open_rb. by rewrite Hread.
  - unfold translate, open_rb. by rewrite Hread.
Qed.

Lemma unreadable_file_posts_nothing_witness :
  posts (effects (translate local_client
                    {| readable := fun _ => false; server := fun _ => None |}
                    (str "missing.wav") (str "tiny") (str "json") None)) = [].
Proof.
  rewrite (proj2 (proj2 (unreadable_file_posts_nothing local_client
                           {| readable := fun _ => false; server := fun _ => None |}
                           (str "missing.wav") (str "") (str "tiny") (str "json")
                           None false None eq_refl))).
  reflexivity.
Defined.

(** X14: when [requests.post] raises (server unreachable), each operation
    has posted exactly that one request, prints the failure and returns
    [None]; the streaming path does not fall back. *)
Theorem unreachable_server_returns_none
    (self : WhisperKitClient) (w : world)
    (audio_path language model response_format : text)
    (tg : option (list text)) (debug : bool) (include : option (list text)) :
  readable w audio_path = true →
  (server w (non_streaming_request self audio_path language model response_format
               tg include) = None →
   _transcribe_non_streaming self w audio_path language model response_format tg
     debug include
   = ([Open audio_path;
       Post (non_streaming_request self audio_path language model response_format
               tg include);
       Print "Non-streaming transcription failed: {}" [E RequestException]],
      Ok PNone))
  ∧ (server w (streaming_request self audio_path language model response_format tg)
     = None →
     _transcribe_streaming self w audio_path language model response_format tg
     = ([Open audio_path;
         Print "Starting streaming transcription..." [];
         Post (streaming_request self audio_path language model response_format tg);
         Print "Streaming transcription failed: {}" [E RequestException]],
        Ok PNone))
  ∧ (server w (translation_request self audio_path model response_format tg) = None →
     translate self w audio_path model response_format tg
     = ([Open audio_path;
         Post (translation_request self audio_path model response_format tg);
         Print "Translation failed: {}" [E RequestException]],
        Ok PNone)).
Proof.
  intros Hread. split_and!; intros Hserver.
  - unfold _transcribe_non_streaming, open_rb, post. by rewrite Hread, Hserver.
  - unfold _transcribe_streaming, open_rb, post. by rewrite Hread, Hserver.
  - unfold translate, open_rb, post. by rewrite Hread, Hserver.
Qed.

Lemma unreachable_server_returns_none_witness :
  result (_transcribe_streaming local_client
            {| readable := fun _ => true; server := fun _ => None |}
            (str "a.wav") (str "") (str "tiny") (str "json") None) = Ok PNone.
Proof.
  rewrite (proj1 (proj2 (unreachable_server_returns_none local_client
                           {| readable := fun _ => true; server := fun _ => None |}
                           (str "a.wav") (str "") (str "tiny") (str "json")
                           None false None eq_refl)) eq_refl).
  reflexivity.
Defined.

(** X15: with a response format other than [verbose_json] (and without
    [debug]), a 200 answer whose body is a JSON object makes the operation
    return the value under [text] (the empty string when the object has no
    [text]) when that value can be printed, and [None] when it is a string
    with a lone surrogate. *)
Theorem plain_format_returns_text_field
    (self : WhisperKitClient) (w : world)
    (audio_path language model response_format : text)
    (tg : option (list text)) (include : option (list text))
    (resp : response) (d : list (text * pyval)) :
  readable w audio_path = true →
  status_code resp = 200%Z →
  json resp = Some (PDict d) →
  response_format ≠ str "verbose_json" →
  let t := dict_get d (str "text") (PStr []) in
  (server w (non_streaming_request self audio_path language model response_format
               tg include) = Some resp →
   result (_transcribe_non_streaming self w audio_path language model
             response_format tg false include)
   = Ok (if printable t then t else PNone))
  ∧ (server w (translation_request self audio_path model response_format tg)
     = Some resp →
     result (translate self w audio_path model response_format tg)
     = Ok (if printable t then t else PNone)).
Proof.
  intros Hread Hstatus Hjson Hfmt t. split; intros Hserver.
  - unfold _transcribe_non_streaming. rewrite result_try_except.
    result_steps. rewrite result_open_rb, Hread. result_steps.
    rewrite result_post, Hserver. result_steps.
    rewrite Hstatus, Hjson. change (negb (200 =? 200)%Z) with false.
    result_steps. cbn [when py_get]. result_steps.
    rewrite result_print_cases. cbn [forallb printable_arg].
    rewrite andb_true_r. fold t. destruct (printable t); [|by result_steps].
    result_steps. rewrite bool_decide_eq_false_2 by done. cbn [when].
    by result_steps.
  - unfold translate. rewrite result_try_except.
    result_steps. rewrite result_open_rb, Hread. result_steps.
    rewrite result_post, Hserver. result_steps.
    rewrite Hstatus, Hjson. change (negb (200 =? 200)%Z) with false.
    result_steps. cbn [py_get]. result_steps.
    rewrite result_print_cases. cbn [forallb printable_arg].
    rewrite andb_true_r. fold t. destruct (printable t); [|by result_steps].
    result_steps. rewrite bool_decide_eq_false_2 by done. cbn [when]. result_steps.
    case_bool_decide; result_steps; done.
Qed.

Lemma plain_format_returns_text_field_witness :
  result (_transcribe_non_streaming local_client
            (canned_world [] (PDict [(str "language", PStr (str "en"))]))
            (str "a.wav") (str "") (str "tiny") (str "json") None false None)
  = Ok (PStr []).
Proof.
  apply (proj1 (plain_format_returns_text_field local_client
                  (canned_world [] (PDict [(str "language", PStr (str "en"))]))
                  (str "a.wav") (str "") (str "tiny") (str "json") None None
                  {| status_code := 200; body := []; iter_lines := [];
                     json := Some (PDict [(str "language", PStr (str "en"))]) |}
                  [(str "language", PStr (str "en"))]
                  eq_refl eq_refl eq_refl ltac:(discriminate))).
  reflexivity.
Defined.

(** X16: a 200 answer whose body is not JSON, or is JSON but not an
    object, makes the non-streaming operation and [translate] return
    [None]. *)
Theorem non_object_body_returns_none
    (self : WhisperKitClient) (w : world)
    (audio_path language model response_format : text)
    (tg : option (list text)) (debug : bool) (include : option (list text))
    (resp : response) :
  readable w audio_path = true →
  status_code resp = 200%Z →
  (∀ d, json resp ≠ Some (PDict d)) →
  (server w (non_streaming_request self audio_path language model response_format
               tg include) = Some resp →
   result (_transcribe_non_streaming self w audio_path language model
             response_format tg debug include) = Ok PNone)
  ∧ (server w (translation_request self audio_path model response_format tg)
     = Some resp →
     result (translate self w audio_path model response_format tg) = Ok PNone).
Proof.
  intros Hread Hstatus Hjson. split; intros Hserver.
  - unfold _transcribe_non_streaming. rewrite result_try_except.
    result_steps. rewrite result_open_rb, Hread. result_steps.
    rewrite result_post, Hserver. result_steps.
    rewrite Hstatus. change (negb (200 =? 200)%Z) with false. result_steps.
    destruct (json resp) as [v|]; [|by result_steps].
    result_steps. destruct (result (when debug _)) as [[]|e]; [|by result_steps].
    destruct v; try (by result_steps); by destruct (Hjson d).
  - unfold translate. rewrite result_try_except.
    result_steps. rewrite result_open_rb, Hread. result_steps.
    rewrite result_post, Hserver. result_steps.
    rewrite Hstatus. change (negb (200 =? 200)%Z) with false. result_steps.
    destruct (json resp) as [v|]; [|by result_steps].
    result_steps. destruct v; try (by result_steps); by destruct (Hjson d).
Qed.

Lemma non_object_body_returns_none_witness :
  result (translate local_client (canned_world [] (PStr (str "ok")))
            (str "a.wav") (str "tiny") (str "json") None) = Ok PNone.
Proof.
  apply (proj2 (non_object_body_returns_none local_client
                  (canned_world [] (PStr (str "ok")))
                  (str "a.wav") (str "") (str "tiny") (str "json") None false None
                  {| status_code := 200; body := []; iter_lines := [];
                     json := Some (PStr (str "ok")) |}
                  eq_refl eq_refl ltac:(discriminate))).
  reflexivity.
Defined.

(** X17: with [verbose_json], a first segment whose [start] is a string
    makes the display raise, and the operation returns [None] although the
    answer carried a text. *)
Theorem malformed_segment_loses_the_text
    (self : WhisperKitClient) (w : world)
    (audio_path language model : text)
    (tg : option (list text)) (debug : bool) (include : option (list text))
    (resp : response) (d seg : list (text * pyval)) (rest : list pyval) (s : text) :
  readable w audio_path = true →
  status_code resp = 200%Z →
  json resp = Some (PDict d) →
  dict_find d (str "segments") = Some (PList (PDict seg :: rest)) →
  dict_find seg (str "start") = Some (PStr s) →
  (server w (non_streaming_request self audio_path language model
               (str "verbose_json") tg include) = Some resp →
   result (_transcribe_non_streaming self w audio_path language model
             (str "verbose_json") tg debug include) = Ok PNone)
  ∧ (server w (translation_request self audio_path model (str "verbose_json") tg)
     = Some resp →
     result (translate self w audio_path model (str "verbose_json") tg) = Ok PNone).
Proof.
  intros Hread Hstatus Hjson Hsegs Hstart. split; intros Hserver.
  - unfold _transcribe_non_streaming. rewrite result_try_except.
    result_steps. rewrite result_open_rb, Hread. result_steps.
    rewrite result_post, Hserver. result_steps.
    rewrite Hstatus, Hjson. change (negb (200 =? 200)%Z) with false.
    result_steps. destruct (result (when debug _)) as [[]|e]; [|by result_steps].
    cbn [py_get]. result_steps.
    destruct (result (print _ _)) as [[]|e]; [|by result_steps].
    rewrite bool_decide_eq_true_2 by done. cbn [when]. result_steps.
    destruct (result (print "Language: {}" _)) as [[]|e]; [|by result_steps].
    result_steps.
    destruct (result (print "Duration: {} seconds" _)) as [[]|e];
      [|by result_steps].
    rewrite (result_show_segments_bad _ _ _ _ _ Hsegs Hstart). by result_steps.
  - unfold translate. rewrite result_try_except.
    result_steps. rewrite result_open_rb, Hread. result_steps.
    rewrite result_post, Hserver. result_steps.
    rewrite Hstatus, Hjson. change (negb (200 =? 200)%Z) with false.
    result_steps. cbn [py_get]. result_steps.
    destruct (result (print _ _)) as [[]|e]; [|by result_steps].
    rewrite bool_decide_eq_true_2 by done. cbn [when]. result_steps.
    destruct (result (print "Output Language: {}" _)) as [[]|e];
      [|by result_steps].
    result_steps.
    destruct (result (print "Duration: {} seconds" _)) as [[]|e];
      [|by result_steps].
    rewrite (result_show_segments_bad _ _ _ _ _ Hsegs Hstart). by result_steps.
Qed.

Lemma malformed_segment_loses_the_text_witness :
  let body := PDict [(str "text", PStr (str "hi"));
                     (str "segments",
                      PList [PDict [(str "start", PStr (str "0.0"));
                                    (str "end", PFloat 3 (-1))]])] in
  result (_transcribe_non_streaming local_client (canned_world [] body)
            (str "a.wav") (str "") (str "tiny") (str "verbose_json") None false None)
  = Ok PNone.
Proof.
  intros body.
  apply (proj1 (malformed_segment_loses_the_text local_client (canned_world [] body)
                  (str "a.wav") (str "") (str "tiny") None false None
                  {| status_code := 200; body := []; iter_lines := [];
                     json := Some body |}
                  _ _ _ (str "0.0") eq_refl eq_refl eq_refl eq_refl eq_refl)).
  reflexivity.
Defined.

(** The requests [transcribe] can post. *)
Lemma transcribe_selects
    (self : WhisperKitClient) (w : world)
    (audio_path language model response_format : text)
    (tg : option (list text)) (debug : bool) (include : option (list text)) :
  transcribe self w audio_path language model false response_format tg debug include
  = _transcribe_non_streaming self w audio_path language model response_format tg
      debug include
  ∧ transcribe self w audio_path language model true response_format tg debug include
    = _transcribe_streaming self w audio_path language model response_format tg.
Proof.
  split; unfold transcribe.
  - destruct (non_streaming_returns self w audio_path language model response_format
                tg debug include) as [v Hv].
    by apply (try_except_ok _ _ v).
  - destruct (streaming_returns self w audio_path language model response_format tg)
      as [v Hv].
    by apply (try_except_ok _ _ v).
Qed.

Lemma transcribe_posts_cases
    (self : WhisperKitClient) (w : world)
    (audio_path language model response_format : text) (stream : bool)
    (tg : option (list text)) (debug : bool) (include : option (list text)) :
  let sent := posts (effects (transcribe self w audio_path language model stream
                                response_format tg debug include)) in
  sent = [] ∨ sent = [non_streaming_request self audio_path language model
                        response_format tg include]
  ∨ sent = [streaming_request self audio_path language model response_format tg]
  ∨ sent = [streaming_request self audio_path language model response_format tg;
            non_streaming_request self audio_path language model
              response_format tg None].
Proof.
  cbn zeta.
  destruct (transcribe_selects self w audio_path language model
              response_format tg debug include) as [Hplain Hstream].
  destruct stream.
  - rewrite Hstream, streaming_posts.
    destruct (readable w audio_path); [|by left].
    destruct (server w _) as [resp|]; [|by right; right; left].
    destruct (negb (status_code resp =? 200)%Z); [by right; right; left|].
    destruct (result (consume tg (iter_lines resp) (PStr []))) as [v|e];
      [|by right; right; left].
    destruct (truthy v); [by right; right; left|by right; right; right].
  - rewrite Hplain, non_streaming_posts.
    destruct (readable w audio_path); [by right; left|by left].
Qed.

(** X18: [transcribe] adds nothing to the operation it selects: its own
    [except] is never reached.  With [stream] set, [debug] and [include]
    are not passed on. *)
Theorem transcribe_is_the_selected_operation
    (self : WhisperKitClient) (w : world)
    (audio_path language model response_format : text)
    (tg : option (list text)) (debug : bool) (include : option (list text)) :
  transcribe self w audio_path language model false response_format tg debug include
  = _transcribe_non_streaming self w audio_path language model response_format tg
      debug include
  ∧ transcribe self w audio_path language model true response_format tg debug include
    = _transcribe_streaming self w audio_path language model response_format tg.
Proof. apply transcribe_selects. Qed.

(** X19: whatever the server answers, [transcribe] posts at most two
    requests and [translate] at most one; a second request is only ever
    the non-streaming request without [include]; every request carries
    the audio file of the call. *)
Theorem transcribe_posts_at_most_two
    (self : WhisperKitClient) (w : world)
    (audio_path language model response_format : text) (stream : bool)
    (tg : option (list text)) (debug : bool) (include : option (list text)) :
  let sent := posts (effects (transcribe self w audio_path language model stream
                                response_format tg debug include)) in
  let streaming :=
    streaming_request self audio_path language model response_format tg in
  let plain include :=
    non_streaming_request self audio_path language model response_format tg include in
  (sent = [] ∨ sent = [plain include] ∨ sent = [streaming]
   ∨ sent = [streaming; plain None])
  ∧ length sent ≤ 2
  ∧ Forall (fun r => files r = audio_path) sent
  ∧ length (posts (effects (translate self w audio_path model response_format tg)))
    ≤ 1.
Proof.
  cbn zeta.
  pose proof (transcribe_posts_cases self w audio_path language model
                response_format stream tg debug include) as Hcases.
  cbn zeta in Hcases. split_and!; [exact Hcases| | |].
  - destruct Hcases as [-> | [-> | [-> | ->]]]; cbn [length]; lia.
  - destruct Hcases as [-> | [-> | [-> | ->]]]; repeat apply Forall_cons_2;
      try apply Forall_nil_2; reflexivity.
  - rewrite translate_posts. destruct (readable w audio_path); cbn [length]; lia.
Qed.


(** ** The command line *)

Section CommandLine.

Lemma split_on_nonempty sep s : split_on sep s ≠ [].
Proof.
  destruct s as [|c s]; [done|]. cbn [split_on].
  destruct (c =? sep)%N; [done|]. by destruct (split_on sep s).
Qed.

Lemma join_cons_nonempty sep x y rest :
  join sep (x :: y :: rest) = x ++ sep ++ join sep (y :: rest).
Proof. reflexivity. Qed.

Lemma join_split s : join [COMMA] (split_on COMMA s) = s.
Proof.
  induction s as [|c s IH]; [done|]. cbn [split_on].
  destruct (N.eqb_spec c COMMA) as [->|Hc].
  - pose proof (split_on_nonempty COMMA s) as Hne.
    destruct (split_on COMMA s) as [|y rest] eqn:Hs; [done|].
    rewrite join_cons_nonempty. cbn [app]. by rewrite IH.
  - destruct (split_on COMMA s) as [|h [|y rest]] eqn:Hs.
    + by destruct (split_on_nonempty COMMA s).
    + cbn [join] in *. by rewrite IH.
    + rewrite join_cons_nonempty in *. by rewrite <- IH.
Qed.

Lemma split_on_plain x : COMMA ∉ x → split_on COMMA x = [x].
Proof.
  induction x as [|c x IH]; [done|].
  intros [Hc Hx]%not_elem_of_cons. cbn [split_on].
  destruct (N.eqb_spec c COMMA) as [->|_]; [done|]. by rewrite IH.
Qed.

Lemma split_on_app_plain x s :
  COMMA ∉ x → split_on COMMA (x ++ COMMA :: s) = x :: split_on COMMA s.
Proof.
  induction x as [|c x IH]; intros Hx.
  - cbn [app split_on]. by rewrite N.eqb_refl.
  - apply not_elem_of_cons in Hx as [Hc Hx]. cbn [app split_on].
    destruct (N.eqb_spec c COMMA) as [->|_]; [done|]. by rewrite IH.
Qed.

Lemma split_join items :
  items ≠ [] → Forall (fun x => COMMA ∉ x) items →
  split_on COMMA (join [COMMA] items) = items.
Proof.
  intros Hne Hall. induction Hall as [|x items Hx Hall IH]; [done|].
  destruct items as [|y rest].
  - cbn [join]. by apply split_on_plain.
  - rewrite join_cons_nonempty. cbn [app].
    rewrite split_on_app_plain by done. by rewrite IH.
Qed.

End CommandLine.

(** X21: splitting at commas and joining with commas are inverse: joining
    the pieces of any text gives the text back, and splitting the join of
    a non-empty list of comma-free items gives the list back. *)
Theorem split_join_round_trip (s : text) (items : list text) :
  join (str ",") (split_on COMMA s) = s
  ∧ (items ≠ [] → Forall (fun x => COMMA ∉ x) items →
     split_on COMMA (join (str ",") items) = items).
Proof. split; [apply join_split|apply split_join]. Qed.

Lemma split_join_round_trip_witness :
  split_on COMMA (join (str ",") [str "word"; str "segment"])
  = [str "word"; str "segment"].
Proof.
  apply (proj2 (split_join_round_trip [] [str "word"; str "segment"])).
  - discriminate.
  - apply (bool_decide_unpack _). vm_compute. exact I.
Defined.

Section CommandLineForms.

Lemma parse_granularities_truthy value :
  truthy_list (parse_granularities value) = given value.
Proof.
  unfold parse_granularities. destruct (given value); [|done].
  pose proof (split_on_nonempty COMMA (default [] value)) as Hne.
  by destruct (split_on COMMA (default [] value)).
Qed.

Lemma posts_then_ret {A} (m : M A) : posts (effects (m ;; ret tt)) = posts (effects m).
Proof. rewrite posts_bind. destruct (result m); by rewrite app_nil_r. Qed.

End CommandLineForms.

(** X22: the [transcribe] command of the command line never sends an
    [include[]] field, and every request it posts carries the
    [--timestamp-granularities] value split at commas, each piece
    stripped, and joined with commas again: the value itself when no
    piece has whitespace around it, and no field when the option is
    absent or empty. *)
Theorem command_line_transcribe_form
    (w : world) (server model audio_file language : text) (stream : bool)
    (response_format : text) (value : option text) (debug : bool) :
  let sent := posts (effects (main_transcribe w server model audio_file language
                                stream response_format value debug)) in
  let pieces := split_on COMMA (default [] value) in
  Forall (fun r =>
            data r !! str "include[]" = None
            ∧ data r !! str "timestamp_granularities[]"
              = if given value then Some (join (str ",") (map strip pieces))
                else None) sent
  ∧ (map strip pieces = pieces →
     join (str ",") (map strip pieces) = default [] value).
Proof.
  cbn zeta. split; [|intros ->; apply join_split].
  unfold main_transcribe. rewrite posts_then_ret.
  set (client := {| server_url := server |}).
  set (tg := parse_granularities value).
  assert (Hplain : data (non_streaming_request client audio_file language model
                           response_format tg None) !! str "include[]" = None
                   ∧ data (non_streaming_request client audio_file language model
                             response_format tg None)
                     !! str "timestamp_granularities[]"
                     = if given value
                       then Some (join (str ",")
                                    (map strip (split_on COMMA (default [] value))))
                       else None).
  { destruct (non_streaming_form_lookup client audio_file language model
                response_format tg None) as (_ & _ & _ & Htg & Hinc & _).
    split; [exact Hinc|]. rewrite Htg. unfold tg.
    rewrite parse_granularities_truthy. unfold parse_granularities.
    by destruct (given value). }
  assert (Hstream : data (streaming_request client audio_file language model
                            response_format tg) !! str "include[]" = None
                    ∧ data (streaming_request client audio_file language model
                              response_format tg)
                      !! str "timestamp_granularities[]"
                      = if given value
                        then Some (join (str ",")
                                     (map strip (split_on COMMA (default [] value))))
                        else None).
  { destruct (streaming_data_insert client audio_file language model
                response_format tg) as (-> & _).
    rewrite !lookup_insert_ne by distinct_keys. exact Hplain. }
  destruct (transcribe_posts_cases client w audio_file language model
              response_format stream tg debug None) as [-> | [-> | [-> | ->]]];
    repeat apply Forall_cons_2; try apply Forall_nil_2; done.
Qed.

Lemma command_line_transcribe_form_witness :
  join (str ",") (map strip (split_on COMMA (default [] (Some (str "word,segment")))))
  = str "word,segment".
Proof.
  apply (proj2 (command_line_transcribe_form
                  (canned_world [] PNone) (str "http://localhost:50060") (str "tiny")
                  (str "a.wav") (str "") false (str "json")
                  (Some (str "word,segment")) false)).
  vm_compute. reflexivity.
Defined.

(** ** [test_logprobs] *)

Section Logprobs.

Context (self : WhisperKitClient) (w : world).



End Logprobs.



(** ** test_transcribe.py *)

Section Selection.



End Selection.



(** ** [run_tests] *)

Section RunTests.

Context (self : WhisperKitClient) (w : world).











End RunTests.


